(** * PageRank: the transition model and the two estimators of
      [pagerank/pagerank.py], embedded shallowly.

    Conventions of the embedding.
    - A Python [dict] keyed by strings is an association list in insertion
      order ([dict V]); [dict_set] overwrites in place or appends, as
      [d[k] = v] does.  A Python dict never holds a key twice: [dict_wf].
    - A Python [set] of page names is a [gset string]: the code only asks
      for membership, truthiness and [len].
    - Python exceptions are values of [exn]; fallible code lives in the
      [result] monad.
    - The numbers of the program (Python floats, and the ints that are
      turned into floats by [/]) are kept behind the interface [Arith], with
      two instances: IEEE binary64 ([f64_arith], what CPython computes with)
      and exact rationals ([qc_arith], arithmetic without rounding).
      [int / int] is the quotient of the two conversions, which is what
      CPython computes when both ints are below [2^53]; [sum] adds from
      [0], left to right.
    - [random] is an explicit [RandomSource] handed to the sampler.
    - [while True] is a loop with fuel; [None] means the fuel ran out.
    - [crawl] starts from what [os.listdir] and [re.findall] return. *)

From Stdlib Require Import QArith Qcanon ZArith Uint63 Floats.
From stdpp Require Import gmap strings list sorting pretty.

Local Open Scope string_scope.
Local Open Scope Z_scope.
Local Open Scope list_scope.

(** ** Exceptions and the error monad *)

Inductive exn : Type :=
| KeyError (k : string)
| ZeroDivisionError
| IndexError
| ValueError.

Inductive result (A : Type) : Type :=
| Ok (a : A)
| Raise (e : exn).
Arguments Ok {A} a.
Arguments Raise {A} e.

Definition bind {A B : Type} (m : result A) (k : A → result B) : result B :=
  match m with
  | Ok a => k a
  | Raise e => Raise e
  end.

Notation "'let*' x ':=' m 'in' k" := (bind m (λ x, k))
  (at level 10, x name, m at level 100, k at level 200, only parsing).

(** A [for] loop whose body may raise, threading the loop state. *)
Fixpoint for_each {A S : Type} (body : S → A → result S) (xs : list A) (s : S)
  : result S :=
  match xs with
  | [] => Ok s
  | x :: xs' => let* s' := body s x in for_each body xs' s'
  end.

(** A comprehension whose element expression may raise. *)
Fixpoint comprehension {A B : Type} (f : A → result B) (xs : list A)
  : result (list B) :=
  match xs with
  | [] => Ok []
  | x :: xs' => let* y := f x in let* ys := comprehension f xs' in Ok (y :: ys)
  end.

(** ** Python dictionaries with string keys *)

Definition dict (V : Type) : Type := list (string * V).

Section Dict.
Context {V : Type}.

Fixpoint dict_get (d : dict V) (k : string) : option V :=
  match d with
  | [] => None
  | (k', v) :: d' => if String.eqb k k' then Some v else dict_get d' k
  end.

(** [d[k]] *)
Definition dict_lookup (d : dict V) (k : string) : result V :=
  match dict_get d k with
  | Some v => Ok v
  | None => Raise (KeyError k)
  end.

(** [d[k] = v] *)
Fixpoint dict_set (d : dict V) (k : string) (v : V) : dict V :=
  match d with
  | [] => [(k, v)]
  | (k', v') :: d' =>
      if String.eqb k k' then (k, v) :: d' else (k', v') :: dict_set d' k v
  end.

Definition dict_keys (d : dict V) : list string := map fst d.
Definition dict_values (d : dict V) : list V := map snd d.

(** [k in d] *)
Definition dict_mem (k : string) (d : dict V) : bool :=
  match dict_get d k with Some _ => true | None => false end.

(** [dict.fromkeys(ks, v)] *)
Definition dict_fromkeys (ks : list string) (v : V) : dict V :=
  fold_left (λ d k, dict_set d k v) ks [].

(** [len(d)] *)
Definition dict_len (d : dict V) : Z := Z.of_nat (length d).

Definition dict_wf (d : dict V) : Prop := NoDup (dict_keys d).

#[export] Instance dict_wf_dec (d : dict V) : Decision (dict_wf d) :=
  NoDup_dec (dict_keys d).
End Dict.

(** A graph: every page with the set of pages it links to. *)
Definition corpus_t : Type := dict (gset string).

(** ** Numbers *)

Class Arith (R : Type) : Type := {
  of_int : Z → R;          (* int -> float conversion *)
  add : R → R → R;
  sub : R → R → R;
  mul : R → R → R;
  quot : R → R → R;        (* [/] on a non-zero divisor *)
  absolute : R → R;        (* [abs] *)
  ltb : R → R → bool;      (* [<] *)
  leb : R → R → bool;      (* [<=] *)
  is_zero : R → bool;      (* [== 0], true of both signed zeros *)
  isfinite : R → bool;     (* [math.isfinite] *)
  lit_1e_3 : R             (* the literal [1e-3] *)
}.

(** IEEE binary64. [of_int] is exact for [|z| < 2^53] and correctly rounded
    below [2^63]; larger integers do not occur in the statements below. *)
Definition f64_of_int (z : Z) : float :=
  match z with
  | Z0 => PrimFloat.zero
  | Zpos _ => PrimFloat.of_uint63 (Uint63.of_Z z)
  | Zneg p => PrimFloat.opp (PrimFloat.of_uint63 (Uint63.of_Z (Zpos p)))
  end.

#[export] Instance f64_arith : Arith float := {|
  of_int := f64_of_int;
  add := PrimFloat.add;
  sub := PrimFloat.sub;
  mul := PrimFloat.mul;
  quot := PrimFloat.div;
  absolute := PrimFloat.abs;
  ltb := PrimFloat.ltb;
  leb := PrimFloat.leb;
  is_zero := PrimFloat.is_zero;
  isfinite := PrimFloat.is_finite;
  lit_1e_3 := PrimFloat.div (f64_of_int 1) (f64_of_int 1000)
|}.

(** Exact rationals in canonical form. *)
Definition Qc_ltb (x y : Qc) : bool :=
  match (x ?= y)%Qc with Lt => true | _ => false end.
Definition Qc_leb (x y : Qc) : bool :=
  match (x ?= y)%Qc with Gt => false | _ => true end.
Definition Qc_abs (x : Qc) : Qc := if Qc_ltb x 0%Qc then (- x)%Qc else x.

#[export] Instance qc_arith : Arith Qc := {|
  of_int := λ z, Q2Qc (inject_Z z);
  add := Qcplus;
  sub := Qcminus;
  mul := Qcmult;
  quot := Qcdiv;
  absolute := Qc_abs;
  ltb := Qc_ltb;
  leb := Qc_leb;
  is_zero := λ x, bool_decide (x = 0%Qc);
  isfinite := λ _, true;
  lit_1e_3 := Q2Qc (1 # 1000)
|}.

Section Program.
Context {R : Type} `{Arith R}.

(** [x / y] with a float divisor. *)
Definition py_div (x y : R) : result R :=
  if is_zero y then Raise ZeroDivisionError else Ok (quot x y).

(** [x / n] with an int divisor: the test is on the integer. *)
Definition py_div_int (x : R) (n : Z) : result R :=
  if Z.eqb n 0 then Raise ZeroDivisionError else Ok (quot x (of_int n)).

(** [sum(xs)]: start from int [0], add left to right. *)
Definition py_sum (xs : list R) : R := fold_left add xs (of_int 0).

(** *** transition_model *)

Definition transition_model (corpus : corpus_t) (page : string) (damping_factor : R)
  : result (dict R) :=
  let prob_values := dict_fromkeys (dict_keys corpus) (of_int 0) in
  let* links := dict_lookup corpus page in
  if negb (bool_decide (links = ∅)) then
    for_each (λ prob_values p,
        let* v := py_div_int (sub (of_int 1) damping_factor) (dict_len corpus) in
        let prob_values := dict_set prob_values p v in
        if bool_decide (p ∈ links) then
          let* cur := dict_lookup prob_values p in
          let* inc := py_div_int damping_factor (Z.of_nat (size links)) in
          Ok (dict_set prob_values p (add cur inc))
        else Ok prob_values)
      (dict_keys corpus) prob_values
  else
    for_each (λ prob_values p,
        let* v := py_div_int (of_int 1) (dict_len corpus) in
        Ok (dict_set prob_values p v))
      (dict_keys corpus) prob_values.

(** The probability the model gives to [p] from a page whose links are
    [links]. *)
Definition model_weight (corpus : corpus_t) (links : gset string) (damping_factor : R)
    (p : string) : R :=
  if bool_decide (links = ∅) then quot (of_int 1) (of_int (dict_len corpus))
  else
    let base := quot (sub (of_int 1) damping_factor) (of_int (dict_len corpus)) in
    if bool_decide (p ∈ links)
    then add base (quot damping_factor (of_int (Z.of_nat (size links))))
    else base.
(** *** The random source

    [random.choice] and [random.choices] are CPython library routines; they
    are written here as [Lib/random.py] has them, reading their raw draws
    from an explicit source: [first_draw] feeds the one [_randbelow] call
    (read modulo its bound) and [unit_draw t] is what the [t]-th call of
    [random()] returns. *)

Record RandomSource : Type := {
  first_draw : nat;
  unit_draw : nat → R
}.

(** [random.choice(seq)] *)
Definition random_choice (src : RandomSource) (seq : list string) : result string :=
  match seq with
  | [] => Raise IndexError
  | _ :: _ =>
      match seq !! (first_draw src mod length seq)%nat with
      | Some x => Ok x
      | None => Raise IndexError
      end
  end.

(** [itertools.accumulate(ws)] *)
Fixpoint running_sums (acc : R) (ws : list R) : list R :=
  match ws with
  | [] => []
  | w :: ws' => add acc w :: running_sums (add acc w) ws'
  end.

Definition accumulate (ws : list R) : list R :=
  match ws with
  | [] => []
  | w :: ws' => w :: running_sums w ws'
  end.

(** [bisect.bisect_right(a, x, lo, hi)]: [while lo < hi], halving; the
    fuel [hi - lo] is what the loop can use at most (see
    [bisect_loop_more_fuel]).  [a[mid]] is in range whenever
    [hi ≤ len(a)], which is how [random_choices] calls it. *)
Fixpoint bisect_loop (fuel : nat) (a : list R) (x : R) (lo hi : nat) : nat :=
  match fuel with
  | O => lo
  | S fuel' =>
      if (lo <? hi)%nat then
        let mid := ((lo + hi) / 2)%nat in
        match a !! mid with
        | Some a_mid =>
            if ltb x a_mid then bisect_loop fuel' a x lo mid
            else bisect_loop fuel' a x (S mid) hi
        | None => lo
        end
      else lo
  end.

Definition bisect (a : list R) (x : R) (lo hi : nat) : nat :=
  bisect_loop (hi - lo) a x lo hi.

(** [random.choices(population, weights=weights)[0]], given the value [u]
    of its call of [random()]. *)
Definition random_choices (u : R) (population : list string) (weights : list R)
  : result string :=
  let cum_weights := accumulate weights in
  let n := length population in
  if negb (length cum_weights =? n)%nat then Raise ValueError
  else
    match last cum_weights with
    | None => Raise IndexError
    | Some w_last =>
        let total := add w_last (of_int 0) in
        if leb total (of_int 0) then Raise ValueError
        else if negb (isfinite total) then Raise ValueError
        else
          match population !! bisect cum_weights (mul u total) 0 (n - 1) with
          | Some p => Ok p
          | None => Raise IndexError
          end
    end.

(** *** sample_pagerank *)

(** [a / b] on two ints. *)
Definition py_true_div (a b : Z) : result R :=
  if Z.eqb b 0 then Raise ZeroDivisionError else Ok (quot (of_int a) (of_int b)).

(** [{k: f(k, v) for k, v in d.items()}] *)
Definition dict_comprehension {V W : Type} (f : string → V → result W) (d : dict V)
  : result (dict W) :=
  for_each (λ acc kv, let* w := f kv.1 kv.2 in Ok (dict_set acc kv.1 w)) d [].

(** The [for i in range(n)] loop: [steps] rounds are left, [t] calls of
    [random()] were made so far. *)
Fixpoint sample_loop (src : RandomSource) (corpus : corpus_t) (damping_factor : R)
    (steps t : nat) (page : string) (count_page : dict Z) : result (dict Z) :=
  match steps with
  | O => Ok count_page
  | S steps' =>
      let* c := dict_lookup count_page page in
      let count_page := dict_set count_page page (c + 1) in
      let* model_to_sample := transition_model corpus page damping_factor in
      let* page := random_choices (unit_draw src t)
                     (dict_keys model_to_sample) (dict_values model_to_sample) in
      sample_loop src corpus damping_factor steps' (S t) page count_page
  end.

(** The visit counters when the loop is over. *)
Definition sample_counts (src : RandomSource) (corpus : corpus_t) (damping_factor : R)
    (n : Z) : result (dict Z) :=
  let count_page := dict_fromkeys (dict_keys corpus) 0 in
  let* page := random_choice src (dict_keys corpus) in
  sample_loop src corpus damping_factor (Z.to_nat n) 0 page count_page.

Definition sample_pagerank (src : RandomSource) (corpus : corpus_t) (damping_factor : R)
    (n : Z) : result (dict R) :=
  let* count_page := sample_counts src corpus damping_factor n in
  dict_comprehension (λ _ count, py_true_div count n) count_page.

(** *** iterate_pagerank *)

(** One pass of the two nested [for] loops: [new_prob] from [pagerank]. *)
Definition next_rank (corpus : corpus_t) (damping_factor : R) (pagerank : dict R)
  : result (dict R) :=
  for_each (λ new_prob p,
      let* prob_links :=
        for_each (λ prob_links i,
            let* model_i := transition_model corpus i damping_factor in
            let* r := dict_lookup pagerank i in
            let* m := dict_lookup model_i p in
            Ok (add prob_links (mul r m)))
          (dict_keys corpus) (of_int 0) in
      Ok (dict_set new_prob p prob_links))
    (dict_keys corpus) [].

(** [sum(abs(new_prob[p] - pagerank[p]) for p in corpus)] *)
Definition l1_distance (corpus : corpus_t) (new_prob pagerank : dict R) : result R :=
  let* terms :=
    comprehension (λ p,
        let* a := dict_lookup new_prob p in
        let* b := dict_lookup pagerank p in
        Ok (absolute (sub a b)))
      (dict_keys corpus) in
  Ok (py_sum terms).

(** [pagerank] after [k] more rounds of replacement. *)
Fixpoint rank_after (corpus : corpus_t) (damping_factor : R) (k : nat)
    (pagerank : dict R) : result (dict R) :=
  match k with
  | O => Ok pagerank
  | S k' =>
      let* new_prob := next_rank corpus damping_factor pagerank in
      rank_after corpus damping_factor k' new_prob
  end.

(** The [while True] loop.  It leaves with both of its variables,
    [(pagerank, new_prob)], as they are at the [break]. *)
Fixpoint power_loop (corpus : corpus_t) (damping_factor : R) (fuel : nat)
    (pagerank : dict R) : result (option (dict R * dict R)) :=
  match fuel with
  | O => Ok None
  | S fuel' =>
      let* new_prob := next_rank corpus damping_factor pagerank in
      let* diff := l1_distance corpus new_prob pagerank in
      if ltb diff lit_1e_3 then Ok (Some (pagerank, new_prob))
      else power_loop corpus damping_factor fuel' new_prob
  end.

(** The last two statements: divide every value by the total. *)
Definition normalize (pagerank : dict R) : result (dict R) :=
  let total := py_sum (dict_values pagerank) in
  dict_comprehension (λ _ v, py_div v total) pagerank.

Definition initial_rank (corpus : corpus_t) : result (dict R) :=
  dict_comprehension (λ _ _, py_true_div 1 (dict_len corpus)) corpus.

Definition iterate_pagerank (fuel : nat) (corpus : corpus_t) (damping_factor : R)
  : result (option (dict R)) :=
  let* pagerank := initial_rank corpus in
  let* exit := power_loop corpus damping_factor fuel pagerank in
  match exit with
  | None => Ok None
  | Some (pagerank, _) => let* ranks := normalize pagerank in Ok (Some ranks)
  end.

(** The estimator as the specification words it: [rank] is replaced by
    [newRank] before the stopping test, so the vector that is normalised
    is [new_prob]. *)
Definition iterate_pagerank_as_specified (fuel : nat) (corpus : corpus_t)
    (damping_factor : R) : result (option (dict R)) :=
  let* pagerank := initial_rank corpus in
  let* exit := power_loop corpus damping_factor fuel pagerank in
  match exit with
  | None => Ok None
  | Some (_, new_prob) => let* ranks := normalize new_prob in Ok (Some ranks)
  end.
End Program.
Arguments RandomSource R : clear implicits.

(** ** crawl

    The directory is given as [os.listdir] and [re.findall] see it: the file
    names in listing order, each with the [href] values found in the file. *)

(** [s.endswith(suffix)] *)
Definition endswith (s suffix : string) : bool :=
  let n := String.length s in
  let m := String.length suffix in
  (m <=? n)%nat && String.eqb (String.substring (n - m) m s) suffix.

(** The dictionary after the first loop of [crawl]. *)
Definition crawl_first_pass (directory : list (string * list string))
    (pages : dict (gset string)) : dict (gset string) :=
  fold_left (λ pages file,
      if negb (endswith file.1 ".html") then pages
      else dict_set pages file.1 (list_to_set file.2 ∖ {[file.1]}))
    directory pages.

Definition crawl (directory : list (string * list string)) : result (dict (gset string)) :=
  let pages := crawl_first_pass directory [] in
  for_each (λ pages filename,
      let* links := dict_lookup pages filename in
      Ok (dict_set pages filename (filter (λ link, Is_true (dict_mem link pages)) links)))
    (dict_keys pages) pages.

(** ** Graphs of the examples *)

Definition two_cycle : corpus_t := [("A", {["B"]}); ("B", {["A"]})].
Definition dangling_pair : corpus_t := [("A", {["B"]}); ("B", ∅)].
Definition single_page : corpus_t := [("A", ∅)].

(** [DAMPING] and [SAMPLES], the constants of the module. *)
#[warnings="-inexact-float"]
Definition DAMPING : float := 0.85%float.
Definition SAMPLES : Z := 10000.

(** Random sources that return the same draw at every call. *)
Definition fixed_source {R : Type} (k : nat) (u : R) : RandomSource R :=
  {| first_draw := k; unit_draw := λ _, u |}.

(** Does the model of every page of [graph] sum to 1 within [1e-9], in
    binary64 and with damping [DAMPING]? *)
Definition sums_to_one_f64 (graph : corpus_t) : bool :=
  forallb (λ page,
      match transition_model graph page DAMPING with
      | Ok dist =>
          leb (absolute (sub (py_sum (dict_values dist)) (of_int 1)))
            (quot (of_int 1) (of_int 1000000000))
      | Raise _ => false
      end)
    (dict_keys graph).

(** The invariants of the data model: a dictionary (no key twice) whose
    links (a) stay inside the page set and (b) never point at their own
    page, with (c) at least one page. *)
Record valid_graph (graph : corpus_t) : Prop := {
  graph_wf : dict_wf graph;
  graph_closed : ∀ page links, dict_get graph page = Some links →
                   ∀ q, q ∈ links → q ∈ dict_keys graph;
  graph_irreflexive : ∀ page links, dict_get graph page = Some links → page ∉ links;
  graph_nonempty : graph ≠ []
}.

(** An executable check of the invariants. *)
Definition check_graph (graph : corpus_t) : bool :=
  bool_decide (NoDup (dict_keys graph))
  && forallb (λ entry : string * gset string,
        bool_decide (entry.1 ∉ entry.2)
        && forallb (λ q, bool_decide (q ∈ dict_keys graph)) (elements entry.2))
      graph
  && negb (bool_decide (graph = [])).

(** The sum of a list of integers. *)
Definition Z_total (xs : list Z) : Z := foldr Z.add 0 xs.

(** The sum of a list of rationals. *)
Definition Qc_total (xs : list Qc) : Qc := foldr Qcplus 0%Qc xs.


(** ** Notions used to state further properties *)

Section Rounds.
Context {R : Type} `{Arith R}.

(** The L1 distance that round [j] of the loop finds (rounds count from 0,
    [start] is the vector the loop begins with). *)
Definition round_distance (corpus : corpus_t) (damping_factor : R) (start : dict R)
    (j : nat) : result R :=
  let* pagerank := rank_after corpus damping_factor j start in
  let* new_prob := next_rank corpus damping_factor pagerank in
  l1_distance corpus new_prob pagerank.
End Rounds.

Section Inflow.
Context {R : Type} `{Arith R}.

(** What one pass of the inner loop of [iterate_pagerank] leaves in
    [prob_links] for page [p], when [rank i] is the rank of page [i]. *)
Definition inflow (corpus : corpus_t) (damping_factor : R) (rank : string → R)
    (p : string) : R :=
  fold_left
    (λ prob_links entry,
       add prob_links (mul (rank entry.1) (model_weight corpus entry.2 damping_factor p)))
    corpus (of_int 0).
End Inflow.

(** A graph with a link that leaves it. *)
Definition open_pair : corpus_t := [("A", {["B"; "C"]}); ("B", ∅)].

(** Three pages, no link. *)
Definition lonely_pages : corpus_t := [("A", ∅); ("B", ∅); ("C", ∅)].

(** ** main

    A run of the program is what it printed and how it ended.  The command
    line, the directory as [crawl] reads it and the random source are
    handed in; [format_4f] stands for the format [{:.4f}] of a float, and
    [damping] and [samples] for the constants [DAMPING] and [SAMPLES]. *)

Inductive ending : Type :=
| Returns
| Exits (message : string)
| Raises (e : exn)
| StillIterating.

Record run : Type := {
  printed : list string;
  ended : ending
}.

(** [sorted(ks)] on strings: by code point, which on the bytes of a string
    is the order of [String.leb]. *)
Definition sorted (ks : list string) : list string :=
  merge_sort (λ a b, Is_true (String.leb a b)) ks.

Section Main.
Context {R : Type} `{Arith R}.
Variable format_4f : R → string.

(** The line that [print(f"  {page}: {ranks[page]:.4f}")] writes. *)
Definition page_line (page : string) (rank : R) : string :=
  "  " +:+ page +:+ ": " +:+ format_4f rank.

(** [for page in sorted(ranks): print(...)], after [out] was printed:
    everything printed, and the exception that ended the loop if any. *)
Fixpoint print_pages (ranks : dict R) (pages : list string) (out : list string)
  : list string * option exn :=
  match pages with
  | [] => (out, None)
  | page :: pages' =>
      match dict_lookup ranks page with
      | Raise e => (out, Some e)
      | Ok rank => print_pages ranks pages' (out ++ [page_line page rank])
      end
  end.

Definition main_with (damping : R) (samples : Z) (argv : list string)
    (listdir : string → list (string * list string)) (src : RandomSource R)
    (fuel : nat) : run :=
  if negb (length argv =? 2)%nat then
    {| printed := []; ended := Exits "Usage: python pagerank.py corpus" |}
  else
    match argv !! 1%nat with
    | None => {| printed := []; ended := Raises IndexError |}
    | Some directory =>
        match crawl (listdir directory) with
        | Raise e => {| printed := []; ended := Raises e |}
        | Ok corpus =>
            match sample_pagerank src corpus damping samples with
            | Raise e => {| printed := []; ended := Raises e |}
            | Ok ranks =>
                let out := ["PageRank Results from Sampling (n = " +:+ pretty samples +:+ ")"] in
                match print_pages ranks (sorted (dict_keys ranks)) out with
                | (out, Some e) => {| printed := out; ended := Raises e |}
                | (out, None) =>
                    match iterate_pagerank fuel corpus damping with
                    | Raise e => {| printed := out; ended := Raises e |}
                    | Ok None => {| printed := out; ended := StillIterating |}
                    | Ok (Some ranks) =>
                        let out := out ++ ["PageRank Results from Iteration"] in
                        match print_pages ranks (sorted (dict_keys ranks)) out with
                        | (out, Some e) => {| printed := out; ended := Raises e |}
                        | (out, None) => {| printed := out; ended := Returns |}
                        end
                    end
                end
            end
        end
    end.
End Main.

(** The program: binary64, with the constants of the module. *)
Definition main (format_4f : float → string) (argv : list string)
    (listdir : string → list (string * list string)) (src : RandomSource float)
    (fuel : nat) : run :=
  main_with format_4f DAMPING SAMPLES argv listdir src fuel.

(** A directory of two pages that link to each other, and a file that is
    not a page. *)
Definition two_page_directory : list (string * list string) :=
  [("b.html", ["a.html"; "b.html"]); ("a.html", ["b.html"; "c.html"]); ("notes.txt", [])].

(** [line] is the line of [page] in the report of [ranks]. *)
Definition is_line_of {R : Type} (format_4f : R → string) (ranks : dict R)
    (page line : string) : Prop :=
  ∃ rank, dict_get ranks page = Some rank ∧ line = page_line format_4f page rank.

(** ** The exact value of a binary64 number

    A finite binary64 number is [± m · 2^e]; [f64_exact] is that rational
    (0 for the infinities and NaN).  With it the sum of returned floats
    can be taken without rounding. *)
Definition SF2Q (x : spec_float) : Q :=
  match x with
  | S754_finite s m e =>
      let v := if 0 <=? e then inject_Z (Zpos m * 2 ^ e)
               else (Zpos m # Pos.pow 2 (Z.to_pos (- e))) in
      if s then Qopp v else v
  | _ => 0%Q
  end.

Definition f64_exact (x : float) : Q := SF2Q (Prim2SF x).

(** The sum of a list of rationals, in [Q]. *)
Definition Q_total (xs : list Q) : Q := foldr Qplus 0%Q xs.

(** A random source whose walk on three unlinked pages is
    [A, B, B, B, B, C]: it starts at the first page, its first four draws
    select the second page and the later ones the third. *)
Definition walk_ABBBBC : RandomSource float :=
  {| first_draw := 0%nat;
     unit_draw := λ t, if (t <? 4)%nat then 0.5%float else 0.875%float |}.

(** ** Facts about the error monad and dictionaries *)

Lemma bind_Ok {A B : Type} (m : result A) (k : A → result B) (b : B) :
  bind m k = Ok b → ∃ a, m = Ok a ∧ k a = Ok b.
Proof. destruct m as [a|e]; simpl; [eauto | discriminate]. Qed.

Section DictFacts.
Context {V : Type}.
Implicit Types (d : dict V) (k : string) (v : V).

Lemma dict_get_set_eq d k v : dict_get (dict_set d k v) k = Some v.
Proof.
  induction d as [|[k' v'] d IH]; simpl.
  - by rewrite String.eqb_refl.
  - destruct (String.eqb_spec k k') as [->|Hne]; simpl.
    + by rewrite String.eqb_refl.
    + by destruct (String.eqb_spec k k').
Qed.

Lemma dict_get_set_ne d k k' v :
  k ≠ k' → dict_get (dict_set d k v) k' = dict_get d k'.
Proof.
  intros Hne. induction d as [|[k0 v0] d IH]; simpl.
  - by destruct (String.eqb_spec k' k) as [->|].
  - destruct (String.eqb_spec k k0) as [->|Hk]; simpl.
    + by destruct (String.eqb_spec k' k0) as [->|].
    + by rewrite IH.
Qed.

Lemma dict_set_set d k v v' : dict_set (dict_set d k v) k v' = dict_set d k v'.
Proof.
  induction d as [|[k0 v0] d IH]; simpl.
  - by rewrite String.eqb_refl.
  - destruct (String.eqb_spec k k0) as [->|Hk]; simpl.
    + by rewrite String.eqb_refl.
    + destruct (String.eqb_spec k k0); [done | by rewrite IH].
Qed.

Lemma dict_get_Some_keys d k v : dict_get d k = Some v → k ∈ dict_keys d.
Proof.
  induction d as [|[k0 v0] d IH]; simpl; [done|].
  destruct (String.eqb_spec k k0) as [->|Hk]; intros Hg.
  - apply list_elem_of_here.
  - apply list_elem_of_further. by apply IH.
Qed.

Lemma dict_get_is_Some d k : k ∈ dict_keys d → is_Some (dict_get d k).
Proof.
  induction d as [|[k0 v0] d IH]; simpl.
  - by intros ?%not_elem_of_nil.
  - destruct (String.eqb_spec k k0) as [->|Hk]; [by eauto|].
    intros [?|?]%elem_of_cons; [done | by apply IH].
Qed.

Lemma dict_get_None d k : k ∉ dict_keys d → dict_get d k = None.
Proof.
  intros Hk. destruct (dict_get d k) as [v|] eqn:E; [|done].
  by apply dict_get_Some_keys in E.
Qed.

Lemma dict_set_absent d k v : k ∉ dict_keys d → dict_set d k v = d ++ [(k, v)].
Proof.
  induction d as [|[k0 v0] d IH]; simpl; [done|].
  intros Hk. apply not_elem_of_cons in Hk as [Hne Hk].
  destruct (String.eqb_spec k k0); [done|]. by rewrite IH.
Qed.

Lemma dict_set_at (a b : dict V) k v v' :
  k ∉ dict_keys a → dict_set (a ++ (k, v) :: b) k v' = a ++ (k, v') :: b.
Proof.
  induction a as [|[k0 v0] a IH]; simpl.
  - by rewrite String.eqb_refl.
  - intros Hk. apply not_elem_of_cons in Hk as [Hne Hk].
    destruct (String.eqb_spec k k0); [done|]. by rewrite IH.
Qed.

Lemma dict_keys_set d k v :
  dict_keys (dict_set d k v) =
    if bool_decide (k ∈ dict_keys d) then dict_keys d else dict_keys d ++ [k].
Proof.
  induction d as [|[k0 v0] d IH]; simpl; [done|].
  destruct (String.eqb_spec k k0) as [->|Hk]; simpl.
  - rewrite bool_decide_eq_true_2; [done | apply list_elem_of_here].
  - rewrite IH. case_bool_decide as Hin.
    + rewrite bool_decide_eq_true_2; [done | by apply list_elem_of_further].
    + rewrite bool_decide_eq_false_2; [done|].
      by intros [?|?]%elem_of_cons.
Qed.

Lemma dict_set_wf d k v : dict_wf d → dict_wf (dict_set d k v).
Proof.
  unfold dict_wf. intros Hd. rewrite dict_keys_set.
  case_bool_decide as Hin; [done|].
  apply NoDup_app. split_and!; [done | | apply NoDup_singleton].
  intros x Hx ->%list_elem_of_singleton. done.
Qed.

Lemma dict_keys_app (a b : dict V) : dict_keys (a ++ b) = dict_keys a ++ dict_keys b.
Proof. apply map_app. Qed.
End DictFacts.

(** A loop that assigns [g p] to every key [p] of a dictionary, in key
    order, leaves the dictionary [{p: g p}]. *)
Lemma for_each_assign {V : Type} (body : dict V → string → result (dict V))
    (g init : string → V) (post pre : list string) :
  (∀ s p, body s p = Ok (dict_set s p (g p))) →
  NoDup (pre ++ post) →
  for_each body post (map (λ p, (p, g p)) pre ++ map (λ p, (p, init p)) post)
  = Ok (map (λ p, (p, g p)) (pre ++ post)).
Proof.
  intros Hbody. revert pre. induction post as [|p post IH]; intros pre Hnd; simpl.
  - by rewrite !app_nil_r.
  - rewrite Hbody. simpl. rewrite dict_set_at.
    + specialize (IH (pre ++ [p])). rewrite <- !app_assoc in IH. simpl in IH.
      rewrite map_app in IH. simpl in IH. rewrite <- app_assoc in IH. simpl in IH.
      apply IH. done.
    + unfold dict_keys. rewrite map_map. simpl. rewrite map_id.
      apply NoDup_app in Hnd as (_ & Hdisj & _).
      intros Hin. apply (Hdisj p Hin). apply list_elem_of_here.
Qed.

Lemma dict_fromkeys_wf {V : Type} (ks : list string) (v : V) :
  NoDup ks → dict_fromkeys ks v = map (λ k, (k, v)) ks.
Proof.
  unfold dict_fromkeys.
  assert (∀ acc : dict V, NoDup (dict_keys acc ++ ks) →
            fold_left (λ d k, dict_set d k v) ks acc = acc ++ map (λ k, (k, v)) ks) as Hgen.
  { induction ks as [|k ks IH]; intros acc Hnd; simpl.
    - by rewrite app_nil_r.
    - rewrite dict_set_absent.
      + rewrite IH.
        * by rewrite <- app_assoc.
        * rewrite dict_keys_app. simpl. by rewrite <- app_assoc.
      + apply NoDup_app in Hnd as (_ & Hdisj & _).
        intros Hin. apply (Hdisj k Hin). apply list_elem_of_here. }
  intros Hnd. apply (Hgen []). done.
Qed.

Lemma dict_get_map {V : Type} (g : string → V) (ks : list string) (p : string) :
  p ∈ ks → dict_get (map (λ k, (k, g k)) ks) p = Some (g p).
Proof.
  induction ks as [|k ks IH]; simpl.
  - by intros ?%not_elem_of_nil.
  - destruct (String.eqb_spec p k) as [->|Hne]; [done|].
    intros [?|?]%elem_of_cons; [done | by apply IH].
Qed.

Lemma dict_keys_map {V : Type} (g : string → V) (ks : list string) :
  dict_keys (map (λ k, (k, g k)) ks) = ks.
Proof. unfold dict_keys. rewrite map_map. simpl. apply map_id. Qed.

Lemma dict_values_map {V : Type} (g : string → V) (ks : list string) :
  dict_values (map (λ k, (k, g k)) ks) = map g ks.
Proof. unfold dict_values. by rewrite map_map. Qed.

(** ** The transition model in closed form *)

Section TransitionModel.
Context {R : Type} `{Arith R}.

Lemma dict_len_pos {V : Type} (d : dict V) (k : string) (v : V) :
  dict_get d k = Some v → (dict_len d =? 0) = false.
Proof.
  destruct d; [done|]. intros _. unfold dict_len. simpl length.
  apply Z.eqb_neq. lia.
Qed.

Lemma transition_model_closed (corpus : corpus_t) (page : string) (links : gset string)
    (damping_factor : R) :
  dict_wf corpus →
  dict_get corpus page = Some links →
  transition_model corpus page damping_factor
  = Ok (map (λ p, (p, model_weight corpus links damping_factor p)) (dict_keys corpus)).
Proof.
  intros Hwf Hget. unfold transition_model, dict_lookup. rewrite Hget. simpl.
  rewrite (dict_fromkeys_wf _ _ Hwf).
  pose proof (dict_len_pos _ _ _ Hget) as HN.
  case_bool_decide as Hlinks; simpl.
  - apply (for_each_assign _ (model_weight corpus links damping_factor)
             (λ _, of_int 0) (dict_keys corpus) []); [|done].
    intros s p. unfold py_div_int, model_weight. rewrite HN. simpl.
    by rewrite (bool_decide_eq_true_2 (links = ∅)).
  - apply (for_each_assign _ (model_weight corpus links damping_factor)
             (λ _, of_int 0) (dict_keys corpus) []); [|done].
    intros s p. unfold py_div_int, dict_lookup, model_weight. rewrite HN. simpl.
    rewrite (bool_decide_eq_false_2 (links = ∅)) by done.
    case_bool_decide as Hp; [|done].
    rewrite dict_get_set_eq. simpl.
    assert ((Z.of_nat (size links) =? 0) = false) as ->.
    { apply Z.eqb_neq. intros Hz.
      apply Hlinks. apply leibniz_equiv, size_empty_inv. lia. }
    simpl. by rewrite dict_set_set.
Qed.
End TransitionModel.

(** ** Claims on the transition model *)

Section TransitionModelClaims.
Context {R : Type} `{Arith R}.

(** C4. From a page whose link set [links] is not empty, with [k] its
    size and [N] the number of pages, [transition_model] returns a
    dictionary over exactly the pages of the graph that gives every page
    [(1 - damping) / N], and [damping / k] more exactly when the page is
    in [links]. *)
Theorem transition_model_linked (corpus : corpus_t) (page : string)
    (links : gset string) (damping_factor : R) :
  dict_wf corpus →
  dict_get corpus page = Some links →
  links ≠ ∅ →
  ∃ dist,
    transition_model corpus page damping_factor = Ok dist ∧
    dict_keys dist = dict_keys corpus ∧
    ∀ p, p ∈ dict_keys corpus →
      dict_get dist p =
        Some (let base := quot (sub (of_int 1) damping_factor) (of_int (dict_len corpus)) in
              if bool_decide (p ∈ links)
              then add base (quot damping_factor (of_int (Z.of_nat (size links))))
              else base).
Proof.
  intros Hwf Hget Hne. eexists. split; [by apply transition_model_closed|].
  split; [apply dict_keys_map|].
  intros p Hp. rewrite dict_get_map by done.
  unfold model_weight. by rewrite (bool_decide_eq_false_2 (links = ∅)).
Qed.

(** C5. From a dangling page [transition_model] returns the uniform
    distribution: every page of the graph gets [1 / N], whatever the
    damping factor. *)
Theorem transition_model_dangling (corpus : corpus_t) (page : string)
    (damping_factor : R) :
  dict_wf corpus →
  dict_get corpus page = Some ∅ →
  ∃ dist,
    transition_model corpus page damping_factor = Ok dist ∧
    dict_keys dist = dict_keys corpus ∧
    ∀ p, p ∈ dict_keys corpus →
      dict_get dist p = Some (quot (of_int 1) (of_int (dict_len corpus))).
Proof.
  intros Hwf Hget. eexists. split; [by apply transition_model_closed|].
  split; [apply dict_keys_map|].
  intros p Hp. by rewrite dict_get_map.
Qed.
End TransitionModelClaims.

Lemma transition_model_linked_witness :
  ∃ dist,
    transition_model two_cycle "A" 0.5%float = Ok dist ∧
    dict_keys dist = dict_keys two_cycle ∧
    ∀ p, p ∈ dict_keys two_cycle →
      dict_get dist p =
        Some (let base := quot (sub (of_int 1) 0.5%float) (of_int (dict_len two_cycle)) in
              if bool_decide (p ∈ ({["B"]} : gset string))
              then add base (quot 0.5%float (of_int (Z.of_nat (size ({["B"]} : gset string)))))
              else base).
Proof.
  apply (transition_model_linked two_cycle "A" {["B"]} 0.5%float).
  - apply (bool_decide_unpack (dict_wf _)). vm_compute. exact I.
  - reflexivity.
  - set_solver.
Defined.

Lemma transition_model_dangling_witness :
  ∃ dist,
    transition_model dangling_pair "B" 0.5%float = Ok dist ∧
    dict_keys dist = dict_keys dangling_pair ∧
    ∀ p, p ∈ dict_keys dangling_pair →
      dict_get dist p = Some (quot (of_int 1) (of_int (dict_len dangling_pair))).
Proof.
  apply (transition_model_dangling dangling_pair "B" 0.5%float).
  - apply (bool_decide_unpack (dict_wf _)). vm_compute. exact I.
  - reflexivity.
Defined.

(** ** Checked graphs are valid *)

Lemma dict_get_Some_entry {V : Type} (d : dict V) (k : string) (v : V) :
  dict_get d k = Some v → (k, v) ∈ d.
Proof.
  induction d as [|[k0 v0] d IH]; simpl; [done|].
  destruct (String.eqb_spec k k0) as [->|Hne].
  - intros [= ->]. apply list_elem_of_here.
  - intros Hg. apply list_elem_of_further. by apply IH.
Qed.

Lemma check_graph_valid (graph : corpus_t) : check_graph graph = true → valid_graph graph.
Proof.
  unfold check_graph. intros Hc.
  apply andb_true_iff in Hc as [Hc Hne]. apply andb_true_iff in Hc as [Hnd Hall].
  apply bool_decide_eq_true in Hnd. rewrite forallb_forall in Hall.
  assert (∀ page links, dict_get graph page = Some links →
            (page ∉ links) ∧ (∀ q, q ∈ links → q ∈ dict_keys graph)) as Hentry.
  { intros page links Hg.
    apply dict_get_Some_entry in Hg. apply list_elem_of_In in Hg. apply Hall in Hg.
    simpl in Hg. apply andb_true_iff in Hg as [Hself Hin].
    apply bool_decide_eq_true in Hself. split; [done|].
    rewrite forallb_forall in Hin. intros q Hq.
    apply elem_of_elements in Hq. apply list_elem_of_In in Hq. apply Hin in Hq.
    by apply bool_decide_eq_true in Hq. }
  split.
  - done.
  - intros page links Hg. by apply Hentry in Hg as [_ ?].
  - intros page links Hg. by apply Hentry in Hg as [? _].
  - apply negb_true_iff, bool_decide_eq_false in Hne. done.
Qed.

(** ** Exact arithmetic *)

(** Read the operations of [qc_arith] as those of [Qc]. *)
Ltac qc_ops :=
  change (@add Qc qc_arith) with Qcplus in *;
  change (@sub Qc qc_arith) with Qcminus in *;
  change (@mul Qc qc_arith) with Qcmult in *;
  change (@quot Qc qc_arith) with Qcdiv in *;
  change (@of_int Qc qc_arith 0) with 0%Qc in *;
  change (@of_int Qc qc_arith 1) with 1%Qc in *.

Section ExactArithmetic.
Implicit Types (d : Qc) (xs : list Qc).

Lemma of_int_qc_add (a b : Z) :
  of_int (R:=Qc) (a + b) = (of_int a + of_int b)%Qc.
Proof.
  apply Qc_is_canon. simpl. rewrite !Qred_correct, inject_Z_plus. reflexivity.
Qed.

Lemma of_int_qc_zero (a : Z) : of_int (R:=Qc) a = 0%Qc → a = 0.
Proof.
  intros E. apply (f_equal this) in E. simpl in E.
  assert (Qred (inject_Z a) == 0)%Q as E' by (rewrite E; reflexivity).
  rewrite Qred_correct in E'. unfold Qeq in E'. simpl in E'. lia.
Qed.

Lemma of_int_qc_S (n : nat) :
  of_int (R:=Qc) (Z.of_nat (S n)) = (of_int (Z.of_nat n) + 1)%Qc.
Proof. rewrite Nat2Z.inj_succ, <- Z.add_1_r. apply of_int_qc_add. Qed.

Lemma fold_left_Qcplus xs (a : Qc) : fold_left Qcplus xs a = (a + Qc_total xs)%Qc.
Proof.
  revert a. induction xs as [|x xs IH]; intros a; simpl; [ring|].
  rewrite IH. ring.
Qed.

Lemma py_sum_qc xs : py_sum xs = Qc_total xs.
Proof.
  unfold py_sum. qc_ops. rewrite fold_left_Qcplus. ring.
Qed.

Lemma Qc_total_two_values (L : gset string) (base inc : Qc) (ks : list string) :
  Qc_total (map (λ p, if bool_decide (p ∈ L) then (base + inc)%Qc else base) ks)
  = (of_int (Z.of_nat (length ks)) * base
     + of_int (Z.of_nat (length (filter (λ p, p ∈ L) ks))) * inc)%Qc.
Proof.
  induction ks as [|k ks IH].
  - cbn [map Qc_total foldr length filter list_filter]. change (Z.of_nat 0) with 0. qc_ops. ring.
  - cbn [map Qc_total foldr length].
    rewrite filter_cons. rewrite of_int_qc_S.
    change (foldr Qcplus 0%Qc ?l) with (Qc_total l). rewrite IH.
    case_bool_decide as Hk.
    + rewrite decide_True by done. cbn [length]. rewrite of_int_qc_S. ring.
    + rewrite decide_False by done. ring.
Qed.

Lemma Qc_total_constant {A : Type} (c : Qc) (ks : list A) :
  Qc_total (map (λ _, c) ks) = (of_int (Z.of_nat (length ks)) * c)%Qc.
Proof.
  induction ks as [|k ks IH].
  - cbn [map Qc_total foldr length]. change (Z.of_nat 0) with 0. qc_ops. ring.
  - cbn [map Qc_total foldr length]. rewrite of_int_qc_S.
    change (foldr Qcplus 0%Qc ?l) with (Qc_total l). rewrite IH. ring.
Qed.

(** The keys of a graph that are in [links] are as many as [links] has
    elements, when the links stay inside the graph. *)
Lemma count_links (ks : list string) (links : gset string) :
  NoDup ks → (∀ q, q ∈ links → q ∈ ks) →
  length (filter (λ p, p ∈ links) ks) = size links.
Proof.
  intros Hnd Hsub. unfold size, set_size. simpl.
  apply Permutation_length, NoDup_Permutation.
  - by apply NoDup_filter.
  - apply NoDup_elements.
  - intros x. rewrite list_elem_of_filter, elem_of_elements.
    split; [by intros [? _] | by auto].
Qed.

Lemma model_weight_total (corpus : corpus_t) (links : gset string) d :
  dict_wf corpus → corpus ≠ [] →
  (∀ q, q ∈ links → q ∈ dict_keys corpus) →
  Qc_total (map (model_weight corpus links d) (dict_keys corpus)) = 1%Qc.
Proof.
  intros Hwf Hne Hsub.
  assert (of_int (R:=Qc) (dict_len corpus) ≠ 0%Qc) as HN.
  { intros E%of_int_qc_zero. destruct corpus; [done|].
    unfold dict_len in E. simpl in E. lia. }
  assert (length (dict_keys corpus) = length corpus) as Hlen
    by apply length_map.
  unfold model_weight. case_bool_decide as Hl.
  - rewrite Qc_total_constant, Hlen. fold (dict_len corpus).
    qc_ops. field. done.
  - rewrite Qc_total_two_values, count_links, Hlen by done.
    fold (dict_len corpus).
    assert (of_int (R:=Qc) (Z.of_nat (size links)) ≠ 0%Qc) as Hk.
    { intros E%of_int_qc_zero. apply Hl, leibniz_equiv, size_empty_inv. lia. }
    qc_ops. field. done.
Qed.
End ExactArithmetic.

(** C6. On a valid graph, from any of its pages, dangling or not, and with
    any damping factor, the values of the distribution that
    [transition_model] returns sum to 1, so they are within [1e-9] of it
    (exact arithmetic). *)
Theorem transition_model_sums_to_one (graph : corpus_t) (page : string) (damping_factor : Qc) :
  valid_graph graph →
  page ∈ dict_keys graph →
  ∃ dist,
    transition_model graph page damping_factor = Ok dist ∧
    py_sum (dict_values dist) = 1%Qc ∧
    leb (absolute (sub (py_sum (dict_values dist)) (of_int 1))) (Q2Qc (1 # 1000000000)) = true.
Proof.
  intros [Hwf Hclosed _ Hne] Hpage.
  destruct (dict_get_is_Some _ _ Hpage) as [links Hget].
  eexists. split; [by apply transition_model_closed|].
  rewrite dict_values_map, py_sum_qc, model_weight_total by eauto.
  split; reflexivity.
Qed.

Lemma transition_model_sums_to_one_witness :
  ∃ dist,
    transition_model dangling_pair "B" (Q2Qc (85 # 100)) = Ok dist ∧
    py_sum (dict_values dist) = 1%Qc ∧
    leb (absolute (sub (py_sum (dict_values dist)) (of_int 1))) (Q2Qc (1 # 1000000000)) = true.
Proof.
  apply (transition_model_sums_to_one dangling_pair "B" (Q2Qc (85 # 100))).
  - apply check_graph_valid. vm_compute. reflexivity.
  - apply (bool_decide_unpack _). vm_compute. exact I.
Defined.

(** ** The random source *)

Section RandomChoices.
Context {R : Type} `{Arith R}.

Lemma bisect_loop_bounds (fuel : nat) (a : list R) (x : R) (lo hi : nat) :
  (lo ≤ hi)%nat →
  (lo ≤ bisect_loop fuel a x lo hi ≤ hi)%nat.
Proof.
  revert lo hi. induction fuel as [|fuel IH]; intros lo hi Hle; cbn [bisect_loop]; [lia|].
  destruct (Nat.ltb_spec lo hi) as [Hlt|Hge]; [|lia].
  assert (lo ≤ (lo + hi) / 2 < hi)%nat as Hmid.
  { split; [apply Nat.div_le_lower_bound | apply Nat.Div0.div_lt_upper_bound]; lia. }
  destruct (a !! _) as [a_mid|]; [|lia].
  destruct (ltb x a_mid).
  - specialize (IH lo ((lo + hi) / 2)%nat). lia.
  - specialize (IH (S ((lo + hi) / 2)) hi). lia.
Qed.

(** The fuel of [bisect] is enough: with more of it the loop gives the
    same index. *)
Lemma bisect_loop_more_fuel (fuel : nat) (a : list R) (x : R) (lo hi : nat) :
  (hi - lo ≤ fuel)%nat → bisect_loop fuel a x lo hi = bisect a x lo hi.
Proof.
  unfold bisect.
  assert (∀ f1 f2 lo hi, (hi - lo ≤ f1)%nat → (hi - lo ≤ f2)%nat →
            bisect_loop f1 a x lo hi = bisect_loop f2 a x lo hi) as Hgen.
  { clear. induction f1 as [|f1 IH]; intros f2 lo hi H1 H2.
    - destruct f2; cbn [bisect_loop]; [done|].
      destruct (Nat.ltb_spec lo hi); [lia | done].
    - destruct f2; cbn [bisect_loop].
      + destruct (Nat.ltb_spec lo hi); [lia | done].
      + destruct (Nat.ltb_spec lo hi) as [Hlt|Hge]; [|done].
        assert (lo ≤ (lo + hi) / 2 < hi)%nat as Hmid.
        { split; [apply Nat.div_le_lower_bound | apply Nat.Div0.div_lt_upper_bound]; lia. }
        destruct (a !! _) as [a_mid|]; [|done].
        destruct (ltb x a_mid); apply IH; lia. }
  intros Hf. apply Hgen; lia.
Qed.

Lemma running_sums_length (acc : R) (ws : list R) :
  length (running_sums acc ws) = length ws.
Proof. revert acc. induction ws as [|w ws IH]; intros acc; simpl; [done|]. by rewrite IH. Qed.

Lemma accumulate_length (ws : list R) : length (accumulate ws) = length ws.
Proof. destruct ws; simpl; [done|]. by rewrite running_sums_length. Qed.

(** [random.choices] returns a member of the population as soon as the
    total weight passes its two tests. *)
Lemma random_choices_member (u : R) (population : list string) (weights : list R)
    (w_last : R) :
  length weights = length population →
  last (accumulate weights) = Some w_last →
  leb (add w_last (of_int 0)) (of_int 0) = false →
  isfinite (add w_last (of_int 0)) = true →
  ∃ p, random_choices u population weights = Ok p ∧ p ∈ population.
Proof.
  intros Hlen Hlast Hpos Hfin. unfold random_choices.
  rewrite accumulate_length, Hlen, Nat.eqb_refl, Hlast. simpl.
  rewrite Hpos, Hfin. simpl.
  assert (length population ≠ 0)%nat as Hn.
  { intros Hz. rewrite Hz in Hlen. destruct weights; [done | discriminate]. }
  pose proof (bisect_loop_bounds (length population - 1 - 0) (accumulate weights)
                (mul u (add w_last (of_int 0))) 0 (length population - 1)) as Hb.
  fold (bisect (accumulate weights) (mul u (add w_last (of_int 0))) 0
          (length population - 1)) in Hb.
  destruct (lookup_lt_is_Some_2 population
              (bisect (accumulate weights) (mul u (add w_last (of_int 0))) 0
                 (length population - 1))) as [p Hp]; [lia|].
  rewrite Hp. exists p. split; [done|]. by eapply list_elem_of_lookup_2.
Qed.

Lemma random_choice_member (src : RandomSource R) (seq : list string) :
  seq ≠ [] → ∃ p, random_choice src seq = Ok p ∧ p ∈ seq.
Proof.
  intros Hne. unfold random_choice. destruct seq as [|x seq]; [done|].
  destruct (lookup_lt_is_Some_2 (x :: seq) (first_draw src mod length (x :: seq)))
    as [p Hp].
  { apply Nat.mod_upper_bound. simpl. lia. }
  rewrite Hp. exists p. split; [done|]. by eapply list_elem_of_lookup_2.
Qed.
End RandomChoices.

(** ** Comprehensions over a dictionary *)

Lemma dict_comprehension_wf {V W : Type} (f : string → V → result W) (g : string → V → W)
    (d : dict V) :
  dict_wf d →
  (∀ k v, (k, v) ∈ d → f k v = Ok (g k v)) →
  dict_comprehension f d = Ok (map (λ kv, (kv.1, g kv.1 kv.2)) d).
Proof.
  unfold dict_comprehension, dict_wf.
  assert (∀ post pre : dict V,
            NoDup (dict_keys (pre ++ post)) →
            (∀ k v, (k, v) ∈ post → f k v = Ok (g k v)) →
            for_each (λ acc kv, let* w := f kv.1 kv.2 in Ok (dict_set acc kv.1 w)) post
              (map (λ kv, (kv.1, g kv.1 kv.2)) pre)
            = Ok (map (λ kv, (kv.1, g kv.1 kv.2)) (pre ++ post))) as Hgen.
  { induction post as [|[k v] post IH]; intros pre Hnd Hf; simpl.
    - by rewrite app_nil_r.
    - rewrite (Hf k v) by apply list_elem_of_here. simpl.
      rewrite dict_set_absent.
      + specialize (IH (pre ++ [(k, v)])). rewrite <- app_assoc in IH. simpl in IH.
        rewrite map_app in IH. simpl in IH. apply IH; [done|].
        intros k' v' Hin. apply Hf. by apply list_elem_of_further.
      + rewrite dict_keys_app in Hnd. apply NoDup_app in Hnd as (_ & Hdisj & _).
        unfold dict_keys at 1. rewrite map_map. simpl.
        intros Hin. apply (Hdisj k Hin). apply list_elem_of_here. }
  intros Hnd Hf. by apply (Hgen d []).
Qed.

Lemma Z_total_set (d : dict Z) (k : string) (c v : Z) :
  dict_get d k = Some c →
  Z_total (dict_values (dict_set d k v)) = Z_total (dict_values d) - c + v.
Proof.
  induction d as [|[k0 v0] d IH]; simpl; [done|].
  destruct (String.eqb_spec k k0) as [->|Hne]; simpl.
  - intros [= ->]. lia.
  - intros Hg. rewrite IH by done. lia.
Qed.

Lemma Z_total_zeros {A : Type} (ks : list A) : Z_total (map (λ _, 0) ks) = 0.
Proof. induction ks as [|k ks IH]; simpl; [done|]. by rewrite IH. Qed.

(** ** The sampler in exact arithmetic *)

Section SamplerExact.
Implicit Types (damping_factor : Qc) (src : RandomSource Qc).

Lemma last_running_sums (acc : Qc) (ws : list Qc) :
  last (acc :: running_sums acc ws) = Some (acc + Qc_total ws)%Qc.
Proof.
  revert acc. induction ws as [|w ws IH]; intros acc.
  - cbn [running_sums last Qc_total foldr]. apply (f_equal Some). ring.
  - cbn [running_sums]. rewrite last_cons_cons. qc_ops. rewrite IH.
    apply (f_equal Some). cbn [Qc_total foldr]. change (foldr Qcplus 0%Qc ws) with (Qc_total ws). ring.
Qed.

Lemma last_accumulate (ws : list Qc) :
  ws ≠ [] → last (accumulate ws) = Some (Qc_total ws).
Proof.
  destruct ws as [|w ws]; [done|]. intros _. unfold accumulate.
  by rewrite last_running_sums.
Qed.

(** On a valid graph a step of the walk always lands on a page of the
    graph. *)
Lemma next_page_member (graph : corpus_t) (page : string) damping_factor (u : Qc) :
  valid_graph graph → page ∈ dict_keys graph →
  ∃ model next,
    transition_model graph page damping_factor = Ok model ∧
    random_choices u (dict_keys model) (dict_values model) = Ok next ∧
    next ∈ dict_keys graph.
Proof.
  intros Hv Hpage. pose proof Hv as [Hwf Hclosed _ Hne].
  destruct (dict_get_is_Some _ _ Hpage) as [links Hget].
  pose proof (transition_model_closed graph page links damping_factor Hwf Hget) as Hm.
  destruct (random_choices_member u
              (dict_keys graph)
              (map (model_weight graph links damping_factor) (dict_keys graph)) 1%Qc)
    as (next & Hnext & Hin).
  - by rewrite length_map.
  - rewrite last_accumulate.
    + f_equal. apply model_weight_total; eauto.
    + destruct graph; [done | discriminate].
  - reflexivity.
  - reflexivity.
  - eexists _, next. split; [exact Hm|].
    by rewrite dict_keys_map, dict_values_map.
Qed.

Lemma sample_loop_counts (graph : corpus_t) damping_factor src
    (steps t : nat) (page : string) (count_page : dict Z) :
  valid_graph graph → page ∈ dict_keys graph →
  dict_keys count_page = dict_keys graph →
  ∃ counts,
    sample_loop src graph damping_factor steps t page count_page = Ok counts ∧
    dict_keys counts = dict_keys graph ∧
    Z_total (dict_values counts) = Z_total (dict_values count_page) + Z.of_nat steps.
Proof.
  intros Hv. revert t page count_page.
  induction steps as [|steps IH]; intros t page count_page Hpage Hkeys.
  - exists count_page. simpl. split_and!; [done | done | lia].
  - cbn [sample_loop]. unfold dict_lookup.
    destruct (dict_get_is_Some count_page page) as [c Hc]; [by rewrite Hkeys|].
    rewrite Hc. cbn [bind].
    destruct (next_page_member graph page damping_factor (unit_draw src t) Hv Hpage)
      as (model & next & -> & Hnext & Hin).
    cbn [bind]. rewrite Hnext. cbn [bind].
    destruct (IH (S t) next (dict_set count_page page (c + 1)) Hin)
      as (counts & Hloop & Hk & Htot).
    { rewrite dict_keys_set, Hkeys. by rewrite bool_decide_eq_true_2. }
    exists counts. split_and!; [done | done |].
    rewrite Htot, (Z_total_set _ _ c) by done. lia.
Qed.

Lemma Qc_total_scaled (n : Z) (cs : list Z) :
  n ≠ 0 →
  Qc_total (map (λ c, quot (of_int c) (of_int n)) cs)
  = quot (of_int (Z_total cs)) (of_int (R:=Qc) n).
Proof.
  intros Hn.
  assert (of_int (R:=Qc) n ≠ 0%Qc) as Hn' by (by intros E%of_int_qc_zero).
  induction cs as [|c cs IH].
  - cbn [map Qc_total foldr Z_total]. qc_ops. field. done.
  - cbn [map Qc_total foldr Z_total].
    change (foldr Qcplus 0%Qc ?l) with (Qc_total l).
    change (foldr Z.add 0 ?l) with (Z_total l).
    rewrite IH, of_int_qc_add. qc_ops. field. done.
Qed.
End SamplerExact.

(** The walk and its result in exact arithmetic. *)
Lemma sample_pagerank_exact (src : RandomSource Qc) (graph : corpus_t)
    (damping_factor : Qc) (n : Z) :
  valid_graph graph →
  1 ≤ n →
  ∃ counts ranks,
    sample_counts src graph damping_factor n = Ok counts ∧
    dict_keys counts = dict_keys graph ∧
    Z_total (dict_values counts) = n ∧
    sample_pagerank src graph damping_factor n = Ok ranks ∧
    ranks = map (λ kv, (kv.1, quot (of_int kv.2) (of_int n))) counts ∧
    py_sum (dict_values ranks) = 1%Qc.
Proof.
  intros Hv Hn. pose proof Hv as [Hwf _ _ Hne].
  unfold sample_pagerank, sample_counts.
  destruct (random_choice_member src (dict_keys graph)) as (start & -> & Hstart).
  { destruct graph; [done | discriminate]. }
  cbn [bind]. rewrite (dict_fromkeys_wf _ _ Hwf).
  destruct (sample_loop_counts graph damping_factor src (Z.to_nat n) 0 start
              (map (λ k, (k, 0)) (dict_keys graph)) Hv Hstart)
    as (counts & -> & Hkeys & Htotal).
  { apply dict_keys_map. }
  rewrite dict_values_map, Z_total_zeros, Z2Nat.id in Htotal by lia.
  cbn [bind].
  assert (dict_comprehension (λ _ count, py_true_div count n) counts
          = Ok (map (λ kv, (kv.1, quot (of_int (R:=Qc) kv.2) (of_int n))) counts)) as Hranks.
  { apply (dict_comprehension_wf _ (λ _ c, quot (of_int c) (of_int n))).
    - unfold dict_wf. by rewrite Hkeys.
    - intros k v _. unfold py_true_div.
      by destruct (Z.eqb_spec n 0); [lia|]. }
  eexists counts, _. split_and!; [done | done | lia | exact Hranks | done |].
  unfold dict_values. rewrite map_map. cbn [snd].
  rewrite py_sum_qc.
  rewrite <- (map_map snd (λ c, quot (of_int (R:=Qc) c) (of_int n))).
  fold (dict_values counts).
  rewrite Qc_total_scaled by lia. rewrite Z.add_0_l in Htotal. rewrite Htotal.
  assert (of_int (R:=Qc) n ≠ 0%Qc) as Hn'.
  { intros E%of_int_qc_zero. lia. }
  qc_ops. field. done.
Qed.


(** ** crawl *)

Lemma dict_mem_keys {V : Type} (d : dict V) (k : string) :
  Is_true (dict_mem k d) ↔ k ∈ dict_keys d.
Proof.
  unfold dict_mem. split.
  - destruct (dict_get d k) eqn:E; [|done]. intros _. by eapply dict_get_Some_keys.
  - intros [v ->]%dict_get_is_Some. done.
Qed.

Lemma dict_get_at {V : Type} (a b : dict V) (k : string) (v : V) :
  k ∉ dict_keys a → dict_get (a ++ (k, v) :: b) k = Some v.
Proof.
  induction a as [|[k0 v0] a IH]; simpl.
  - by rewrite String.eqb_refl.
  - intros Hk. apply not_elem_of_cons in Hk as [Hne Hk].
    destruct (String.eqb_spec k k0); [done | by apply IH].
Qed.

Lemma dict_set_entry {V : Type} (d : dict V) (k k' : string) (v v' : V) :
  (k', v') ∈ dict_set d k v → (k', v') = (k, v) ∨ (k', v') ∈ d.
Proof.
  induction d as [|[k0 v0] d IH]; simpl.
  - intros ->%list_elem_of_singleton. by left.
  - destruct (String.eqb_spec k k0) as [->|Hne].
    + intros [->|Hin]%elem_of_cons; [by left|]. right. by apply list_elem_of_further.
    + intros [->|Hin]%elem_of_cons; [right; apply list_elem_of_here|].
      destruct (IH Hin) as [?|?]; [by left|]. right. by apply list_elem_of_further.
Qed.

(** A loop over the keys of a dictionary that replaces the value [v] of each
    key by [h v] leaves the dictionary with every value so replaced. *)
Lemma for_each_update {V : Type} (body : dict V → string → result (dict V)) (h : V → V)
    (K : list string) (post pre : dict V) :
  (∀ s k v, dict_keys s = K → dict_get s k = Some v → body s k = Ok (dict_set s k (h v))) →
  dict_keys (pre ++ post) = K →
  NoDup K →
  for_each body (dict_keys post) (map (λ kv, (kv.1, h kv.2)) pre ++ post)
  = Ok (map (λ kv, (kv.1, h kv.2)) (pre ++ post)).
Proof.
  intros Hbody. revert pre. induction post as [|[k v] post IH]; intros pre HK Hnd.
  - simpl. by rewrite !app_nil_r.
  - assert (k ∉ dict_keys (map (λ kv : string * V, (kv.1, h kv.2)) pre)) as Hk.
    { rewrite <- HK, dict_keys_app in Hnd. apply NoDup_app in Hnd as (_ & Hdisj & _).
      unfold dict_keys at 1. rewrite map_map. simpl.
      intros Hin. apply (Hdisj k Hin). apply list_elem_of_here. }
    cbn [dict_keys map fst for_each].
    rewrite (Hbody _ k v).
    + cbn [bind]. rewrite dict_set_at by done.
      specialize (IH (pre ++ [(k, v)])). rewrite <- app_assoc in IH. simpl in IH.
      rewrite map_app in IH. simpl in IH. rewrite <- app_assoc in IH.
      apply IH; done.
    + rewrite <- HK, !dict_keys_app. f_equal.
      unfold dict_keys. rewrite map_map. done.
    + by apply dict_get_at.
Qed.

Lemma crawl_first_pass_wf directory pages :
  dict_wf pages → dict_wf (crawl_first_pass directory pages).
Proof.
  revert pages. induction directory as [|file directory IH]; intros pages Hwf; simpl.
  - done.
  - apply IH. destruct (negb _); [done | by apply dict_set_wf].
Qed.

Lemma crawl_first_pass_no_self directory pages :
  (∀ k ls, (k, ls) ∈ pages → k ∉ ls) →
  ∀ k ls, (k, ls) ∈ crawl_first_pass directory pages → k ∉ ls.
Proof.
  revert pages. induction directory as [|file directory IH]; intros pages Hinv; simpl.
  - done.
  - apply IH. destruct (negb _); [done|].
    intros k ls [[= -> ->]|Hin]%dict_set_entry; [|by apply Hinv].
    intros [_ Hself]%elem_of_difference. apply Hself. by apply elem_of_singleton.
Qed.

Lemma crawl_closed_form directory :
  let pages := crawl_first_pass directory [] in
  crawl directory
  = Ok (map (λ kv, (kv.1, filter (λ link, Is_true (dict_mem link pages)) kv.2)) pages).
Proof.
  intros pages. unfold crawl. fold pages.
  apply (for_each_update _ (λ ls, filter (λ link, Is_true (dict_mem link pages)) ls)
           (dict_keys pages) pages []).
  - intros s k v Hkeys Hget. unfold dict_lookup. rewrite Hget. cbn [bind].
    do 2 f_equal. apply set_eq. intros link.
    rewrite !elem_of_filter, !dict_mem_keys, Hkeys. done.
  - done.
  - apply crawl_first_pass_wf. apply NoDup_nil_2.
Qed.

(** C9. Whatever the files and their links are, [crawl] returns a graph, and
    for every page of that graph the outbound set holds only pages of the
    graph and never the page itself: invariants (a) and (b) hold at every
    key. *)
Theorem crawl_links_inside_and_no_self (directory : list (string * list string)) :
  ∃ graph,
    crawl directory = Ok graph ∧
    dict_wf graph ∧
    ∀ page links, dict_get graph page = Some links →
      (∀ q, q ∈ links → q ∈ dict_keys graph) ∧ page ∉ links.
Proof.
  eexists. split; [apply crawl_closed_form|].
  set (pages := crawl_first_pass directory []).
  assert (dict_keys (map (λ kv : string * gset string,
                       (kv.1, filter (λ link, Is_true (dict_mem link pages)) kv.2)) pages)
          = dict_keys pages) as Hkeys.
  { unfold dict_keys. rewrite map_map. done. }
  split.
  - unfold dict_wf. rewrite Hkeys. apply crawl_first_pass_wf, NoDup_nil_2.
  - intros page links Hget. rewrite Hkeys.
    apply dict_get_Some_entry, list_elem_of_In, in_map_iff in Hget
      as ([k ls] & [= <- <-] & Hin).
    apply list_elem_of_In in Hin. cbn [fst snd]. split.
    + intros q [Hq _]%elem_of_filter. by apply dict_mem_keys.
    + intros [_ Hself]%elem_of_filter.
      revert Hself. apply (crawl_first_pass_no_self directory []); [|done].
      by intros ? ? ?%not_elem_of_nil.
Qed.

(** A directory of three files: the self-link, the link that leaves the
    corpus and the file that is not a page are all dropped. *)
Example crawl_three_files :
  crawl [("1.html", ["2.html"; "1.html"; "x.html"]); ("2.html", ["1.html"]); ("notes.txt", [])]
  = Ok [("1.html", {["2.html"]}); ("2.html", {["1.html"]})].
Proof. by vm_compute. Qed.

(** ** The iterative estimator *)

Section PowerLoop.
Context {R : Type} `{Arith R}.

(** What holds when the loop leaves: the round that ended it computed
    [new_prob] from [pagerank], found them closer than [1e-3], and left
    [pagerank] as it was; [pagerank] is the start vector after some number
    of replacements. *)
Lemma power_loop_exit (corpus : corpus_t) (damping_factor : R) (fuel : nat)
    (start pagerank new_prob : dict R) :
  power_loop corpus damping_factor fuel start = Ok (Some (pagerank, new_prob)) →
  ∃ k diff,
    rank_after corpus damping_factor k start = Ok pagerank ∧
    next_rank corpus damping_factor pagerank = Ok new_prob ∧
    l1_distance corpus new_prob pagerank = Ok diff ∧
    ltb diff lit_1e_3 = true.
Proof.
  revert start. induction fuel as [|fuel IH]; intros start; cbn [power_loop]; [done|].
  intros Hloop.
  apply bind_Ok in Hloop as (new & Hnew & Hloop).
  apply bind_Ok in Hloop as (diff & Hdiff & Hloop).
  destruct (ltb diff lit_1e_3) eqn:Hlt.
  - injection Hloop as <- <-. exists 0%nat, diff. done.
  - destruct (IH _ Hloop) as (k & diff' & Hk & Hrest).
    exists (S k), diff'. split; [|done]. cbn [rank_after]. by rewrite Hnew.
Qed.

(** More fuel does not change what the loop leaves with. *)
Lemma power_loop_more_fuel (corpus : corpus_t) (damping_factor : R) (fuel extra : nat)
    (start : dict R) (exit : dict R * dict R) :
  power_loop corpus damping_factor fuel start = Ok (Some exit) →
  power_loop corpus damping_factor (fuel + extra) start = Ok (Some exit).
Proof.
  revert start. induction fuel as [|fuel IH]; intros start; cbn [power_loop]; [done|].
  intros Hloop. cbn [Nat.add power_loop].
  destruct (next_rank corpus damping_factor start) as [new|]; [|done]. cbn [bind] in *.
  destruct (l1_distance corpus new start) as [diff|]; [|done]. cbn [bind] in *.
  destruct (ltb diff lit_1e_3); [done | by apply IH].
Qed.

Lemma iterate_pagerank_more_fuel (corpus : corpus_t) (damping_factor : R)
    (fuel extra : nat) (ranks : dict R) :
  iterate_pagerank fuel corpus damping_factor = Ok (Some ranks) →
  iterate_pagerank (fuel + extra) corpus damping_factor = Ok (Some ranks).
Proof.
  unfold iterate_pagerank. intros Hit.
  apply bind_Ok in Hit as (start & -> & Hit). cbn [bind].
  apply bind_Ok in Hit as ([[pagerank new_prob]|] & Hloop & Hit); [|done].
  by rewrite (power_loop_more_fuel _ _ _ extra _ _ Hloop).
Qed.

Lemma rank_after_S (corpus : corpus_t) (damping_factor : R) (j : nat)
    (start new_prob : dict R) :
  next_rank corpus damping_factor start = Ok new_prob →
  rank_after corpus damping_factor (S j) start
  = rank_after corpus damping_factor j new_prob.
Proof. intros Hn. cbn [rank_after]. by rewrite Hn. Qed.

Lemma round_distance_S (corpus : corpus_t) (damping_factor : R) (j : nat)
    (start new_prob : dict R) :
  next_rank corpus damping_factor start = Ok new_prob →
  round_distance corpus damping_factor start (S j)
  = round_distance corpus damping_factor new_prob j.
Proof. intros Hn. unfold round_distance. by rewrite (rank_after_S _ _ _ _ _ Hn). Qed.

Lemma power_loop_first_close (corpus : corpus_t) (damping_factor : R) (fuel : nat)
    (start pagerank new_prob : dict R) :
  power_loop corpus damping_factor fuel start = Ok (Some (pagerank, new_prob)) →
  ∃ k,
    (k < fuel)%nat ∧
    rank_after corpus damping_factor k start = Ok pagerank ∧
    (∀ j, (j < k)%nat →
       ∃ diff, round_distance corpus damping_factor start j = Ok diff ∧
               ltb diff lit_1e_3 = false) ∧
    ∃ diff, round_distance corpus damping_factor start k = Ok diff ∧
            ltb diff lit_1e_3 = true.
Proof.
  revert start. induction fuel as [|fuel IH]; intros start; cbn [power_loop]; [done|].
  intros Hloop.
  apply bind_Ok in Hloop as (new & Hnew & Hloop).
  apply bind_Ok in Hloop as (diff & Hdiff & Hloop).
  assert (round_distance corpus damping_factor start 0 = Ok diff) as H0.
  { unfold round_distance. cbn [rank_after bind]. by rewrite Hnew. }
  destruct (ltb diff lit_1e_3) eqn:Hlt.
  - injection Hloop as <- <-. exists 0%nat. split_and!; [lia | done | lia | eauto].
  - destruct (IH _ Hloop) as (k & Hk & Hrank & Hbefore & Hat).
    exists (S k). split_and!.
    + lia.
    + by rewrite (rank_after_S _ _ _ _ _ Hnew).
    + intros [|j] Hj; [eauto|].
      rewrite (round_distance_S _ _ _ _ _ Hnew). apply Hbefore. lia.
    + by rewrite (round_distance_S _ _ _ _ _ Hnew).
Qed.

(** The state at the [break]: [pagerank] entered round [k], which is the
    first round whose distance is below [1e-3], and [new_prob] is what that
    round computed from it. *)
Lemma power_loop_break (corpus : corpus_t) (damping_factor : R) (fuel : nat)
    (start pagerank new_prob : dict R) :
  power_loop corpus damping_factor fuel start = Ok (Some (pagerank, new_prob)) →
  ∃ k diff,
    (k < fuel)%nat ∧
    rank_after corpus damping_factor k start = Ok pagerank ∧
    (∀ j, (j < k)%nat →
       ∃ diff_j, round_distance corpus damping_factor start j = Ok diff_j ∧
                 ltb diff_j lit_1e_3 = false) ∧
    next_rank corpus damping_factor pagerank = Ok new_prob ∧
    l1_distance corpus new_prob pagerank = Ok diff ∧
    ltb diff lit_1e_3 = true.
Proof.
  revert start. induction fuel as [|fuel IH]; intros start; cbn [power_loop]; [done|].
  intros Hloop.
  apply bind_Ok in Hloop as (new & Hnew & Hloop).
  apply bind_Ok in Hloop as (diff & Hdiff & Hloop).
  assert (round_distance corpus damping_factor start 0 = Ok diff) as H0.
  { unfold round_distance. cbn [rank_after bind]. by rewrite Hnew. }
  destruct (ltb diff lit_1e_3) eqn:Hlt.
  - injection Hloop as <- <-. exists 0%nat, diff.
    split_and!; [lia | done | lia | done | done | done].
  - destruct (IH _ Hloop) as (k & diff' & Hk & Hrank & Hbefore & Hrest).
    exists (S k), diff'. split_and!.
    + lia.
    + by rewrite (rank_after_S _ _ _ _ _ Hnew).
    + intros [|j] Hj; [eauto|].
      rewrite (round_distance_S _ _ _ _ _ Hnew). apply Hbefore. lia.
    + apply Hrest.
    + apply Hrest.
    + apply Hrest.
Qed.

(** C1, amended. When [iterate_pagerank] returns, its loop left in round
    [k], the first round whose L1 distance is below [1e-3] (every earlier
    round found a distance that is not below it).  That round computed
    [new_prob] from [pagerank], the vector after [k] replacements, and the
    [break] came before [pagerank] was replaced: the loop's two variables
    are [pagerank] and [new_prob], the result is [pagerank] normalised, and
    normalising [new_prob] is what the estimator of the specification
    returns instead. *)
Theorem iterate_pagerank_returns_previous_iterate (corpus : corpus_t)
    (damping_factor : R) (fuel : nat) (ranks : dict R) :
  iterate_pagerank fuel corpus damping_factor = Ok (Some ranks) →
  ∃ start k pagerank new_prob diff,
    initial_rank corpus = Ok start ∧
    power_loop corpus damping_factor fuel start = Ok (Some (pagerank, new_prob)) ∧
    (k < fuel)%nat ∧
    (∀ j, (j < k)%nat →
       ∃ diff_j, round_distance corpus damping_factor start j = Ok diff_j ∧
                 ltb diff_j lit_1e_3 = false) ∧
    rank_after corpus damping_factor k start = Ok pagerank ∧
    next_rank corpus damping_factor pagerank = Ok new_prob ∧
    l1_distance corpus new_prob pagerank = Ok diff ∧
    ltb diff lit_1e_3 = true ∧
    normalize pagerank = Ok ranks ∧
    iterate_pagerank_as_specified fuel corpus damping_factor
    = (let* specified := normalize new_prob in Ok (Some specified)).
Proof.
  unfold iterate_pagerank, iterate_pagerank_as_specified. intros Hit.
  apply bind_Ok in Hit as (start & Hstart & Hit).
  apply bind_Ok in Hit as ([[pagerank new_prob]|] & Hloop & Hit); [|done].
  apply bind_Ok in Hit as (ranks' & Hnorm & [= <-]).
  destruct (power_loop_break _ _ _ _ _ _ Hloop)
    as (k & diff & Hk & Hrank & Hbefore & Hnew & Hdiff & Hlt).
  exists start, k, pagerank, new_prob, diff.
  rewrite Hstart. cbn [bind]. rewrite Hloop. cbn [bind]. done.
Qed.
End PowerLoop.

Lemma iterate_pagerank_returns_previous_iterate_witness :
  ∃ start k pagerank new_prob diff,
    initial_rank dangling_pair = Ok start ∧
    power_loop dangling_pair 0.5%float 10 start = Ok (Some (pagerank, new_prob)) ∧
    (k < 10)%nat ∧
    (∀ j, (j < k)%nat →
       ∃ diff_j, round_distance dangling_pair 0.5%float start j = Ok diff_j ∧
                 ltb diff_j lit_1e_3 = false) ∧
    rank_after dangling_pair 0.5%float k start = Ok pagerank ∧
    next_rank dangling_pair 0.5%float pagerank = Ok new_prob ∧
    l1_distance dangling_pair new_prob pagerank = Ok diff ∧
    ltb diff lit_1e_3 = true ∧
    normalize pagerank = Ok [("A", 0.400390625%float); ("B", 0.599609375%float)] ∧
    iterate_pagerank_as_specified 10 dangling_pair 0.5%float
    = (let* specified := normalize new_prob in Ok (Some specified)).
Proof.
  apply (iterate_pagerank_returns_previous_iterate dangling_pair 0.5%float 10).
  vm_compute. reflexivity.
Defined.

(** C1, as the specification states it, fails.  On the graph [A → B] with
    [B] dangling and damping 0.5 the loop leaves in its fifth round with
    [pagerank] and [new_prob] as below; what is returned is [pagerank]
    normalised, and normalising [new_prob], as the specification has it,
    gives another vector.  Every number here is a dyadic rational, so no
    rounding is involved. *)
Lemma iterate_pagerank_does_not_return_new_prob :
  power_loop dangling_pair 0.5%float 10 [("A", 0.5%float); ("B", 0.5%float)]
    = Ok (Some ([("A", 0.400390625%float); ("B", 0.599609375%float)],
                [("A", 0.39990234375%float); ("B", 0.60009765625%float)])) ∧
  iterate_pagerank 10 dangling_pair 0.5%float
    = Ok (Some [("A", 0.400390625%float); ("B", 0.599609375%float)]) ∧
  iterate_pagerank_as_specified 10 dangling_pair 0.5%float
    = Ok (Some [("A", 0.39990234375%float); ("B", 0.60009765625%float)]) ∧
  iterate_pagerank 10 dangling_pair 0.5%float
    ≠ iterate_pagerank_as_specified 10 dangling_pair 0.5%float.
Proof.
  split_and!; [by vm_compute | by vm_compute | by vm_compute |].
  intros E.
  apply (f_equal (λ r, match r with
                       | Ok (Some ((_, a) :: _)) => PrimFloat.eqb a 0.400390625%float
                       | _ => false
                       end)) in E.
  vm_compute in E. discriminate.
Qed.

(** ** Parameters are not validated *)

Section NoValidation.
Context {R : Type} `{Arith R}.

Lemma sample_counts_no_steps (src : RandomSource R) (corpus : corpus_t)
    (damping_factor : R) (n : Z) :
  dict_wf corpus → corpus ≠ [] → n ≤ 0 →
  sample_counts src corpus damping_factor n = Ok (map (λ k, (k, 0)) (dict_keys corpus)).
Proof.
  intros Hwf Hne Hn. unfold sample_counts.
  destruct (random_choice_member src (dict_keys corpus)) as (start & -> & _).
  { destruct corpus; [done | discriminate]. }
  cbn [bind]. rewrite (dict_fromkeys_wf _ _ Hwf).
  by replace (Z.to_nat n) with 0%nat by lia.
Qed.

(** C2, amended. No operation checks its parameters, and none raises an
    error of its own.  [transition_model] raises [KeyError] when [page] is
    not a key of the graph and otherwise returns a distribution over the
    pages, whatever the damping factor, in [0,1] or not.  On a graph with
    at least one page [sample_pagerank] raises [ZeroDivisionError] for
    [n = 0], from the division that follows the walk, and for [n < 0] it
    walks no step and returns [0 / n] for every page.  ([iterate_pagerank]
    takes no tolerance: the threshold is the literal [1e-3].) *)
Theorem parameters_are_not_validated (src : RandomSource R) (corpus : corpus_t)
    (page : string) (damping_factor : R) (n : Z) :
  dict_wf corpus →
  corpus ≠ [] →
  (page ∉ dict_keys corpus →
     transition_model corpus page damping_factor = Raise (KeyError page)) ∧
  (page ∈ dict_keys corpus →
     ∃ dist, transition_model corpus page damping_factor = Ok dist ∧
             dict_keys dist = dict_keys corpus) ∧
  (n = 0 → sample_pagerank src corpus damping_factor n = Raise ZeroDivisionError) ∧
  (n < 0 → sample_pagerank src corpus damping_factor n
           = Ok (map (λ k, (k, quot (of_int 0) (of_int n))) (dict_keys corpus))).
Proof.
  intros Hwf Hne. split_and!.
  - intros Hpage. unfold transition_model, dict_lookup.
    by rewrite (dict_get_None _ _ Hpage).
  - intros Hpage. destruct (dict_get_is_Some _ _ Hpage) as [links Hget].
    eexists. split; [by apply transition_model_closed | apply dict_keys_map].
  - intros ->. unfold sample_pagerank.
    rewrite sample_counts_no_steps by (done || lia). cbn [bind].
    destruct corpus as [|[k ls] corpus]; [done|]. done.
  - intros Hn. unfold sample_pagerank.
    rewrite sample_counts_no_steps by (done || lia). cbn [bind].
    rewrite (dict_comprehension_wf _ (λ _ c, quot (of_int c) (of_int n))).
    + by rewrite map_map.
    + unfold dict_wf. by rewrite dict_keys_map.
    + intros k v _. unfold py_true_div. by destruct (Z.eqb_spec n 0); [lia|].
Qed.
End NoValidation.

Lemma parameters_are_not_validated_witness :
  ("C" ∉ dict_keys two_cycle →
     transition_model two_cycle "C" 1.5%float = Raise (KeyError "C")) ∧
  ("C" ∈ dict_keys two_cycle →
     ∃ dist, transition_model two_cycle "C" 1.5%float = Ok dist ∧
             dict_keys dist = dict_keys two_cycle) ∧
  (0 = 0 → sample_pagerank (fixed_source 0 0.5%float) two_cycle 1.5%float 0
           = Raise ZeroDivisionError) ∧
  (0 < 0 → sample_pagerank (fixed_source 0 0.5%float) two_cycle 1.5%float 0
           = Ok (map (λ k, (k, quot (of_int 0) (of_int 0))) (dict_keys two_cycle))).
Proof.
  apply (parameters_are_not_validated (fixed_source 0 0.5%float) two_cycle "C" 1.5%float 0).
  - apply (bool_decide_unpack (dict_wf _)). vm_compute. exact I.
  - discriminate.
Defined.

(** C2, as the specification states it, fails: with damping 1.5
    [transition_model] returns a dictionary (with a negative entry), and with
    [n = -1] [sample_pagerank] returns one; neither raises. *)
Lemma out_of_range_parameters_are_accepted :
  transition_model two_cycle "A" 1.5%float
    = Ok [("A", (-0.25)%float); ("B", 1.25%float)] ∧
  sample_pagerank (fixed_source 0 0.5%float) two_cycle 0.5%float (-1)
    = Ok [("A", (-0)%float); ("B", (-0)%float)].
Proof. split; by vm_compute. Qed.

(** ** The empty graph *)

(** C3, amended. On the empty graph [sample_pagerank] raises [IndexError],
    from [random.choice] and before any step of the walk, and
    [iterate_pagerank] raises nothing: its first round ends the loop and it
    returns the empty dictionary. *)
Theorem empty_graph_is_not_guarded (src : RandomSource float) (damping_factor : float)
    (n : Z) (fuel : nat) :
  sample_counts src [] damping_factor n = Raise IndexError ∧
  sample_pagerank src [] damping_factor n = Raise IndexError ∧
  iterate_pagerank (S fuel) [] damping_factor = Ok (Some []).
Proof. split_and!; reflexivity. Qed.

(** C3, as the specification states it, fails: [iterate_pagerank] on the
    empty graph returns, with no error. *)
Lemma iterate_pagerank_accepts_empty_graph :
  iterate_pagerank 1 [] DAMPING = Ok (Some []).
Proof. by vm_compute. Qed.

(** ** The scenarios *)

(** C8. On the two-page cycle with damping 0.85 [iterate_pagerank] leaves its
    loop in the first round, whatever fuel it is given, and returns a rank
    for [A] and one for [B] that are both 0.5, hence within [1e-3] of 0.5
    (binary64). *)
Theorem iterate_pagerank_two_cycle (fuel : nat) :
  ∃ rank_a rank_b : float,
    iterate_pagerank (S fuel) two_cycle DAMPING = Ok (Some [("A", rank_a); ("B", rank_b)]) ∧
    rank_a = 0.5%float ∧
    rank_b = 0.5%float ∧
    leb (absolute (sub rank_a 0.5%float)) lit_1e_3 = true ∧
    leb (absolute (sub rank_b 0.5%float)) lit_1e_3 = true.
Proof. exists 0.5%float, 0.5%float. split_and!; by vm_compute. Qed.

(** ** The graph with one page *)

Section SinglePage.
Context {R : Type} `{Arith R}.

(** The only probability of the model of the one-page graph. *)
Let w : R := quot (of_int 1) (of_int 1).

Lemma transition_model_single_page (damping_factor : R) :
  transition_model single_page "A" damping_factor = Ok [("A", w)].
Proof. reflexivity. Qed.

Lemma sample_loop_single_page (src : RandomSource R) (damping_factor : R)
    (steps t : nat) (c : Z) :
  leb (add w (of_int 0)) (of_int 0) = false →
  isfinite (add w (of_int 0)) = true →
  sample_loop src single_page damping_factor steps t "A" [("A", c)]
  = Ok [("A", c + Z.of_nat steps)].
Proof.
  intros Hpos Hfin. revert t c. induction steps as [|steps IH]; intros t c.
  - cbn [sample_loop]. by rewrite Z.add_0_r.
  - cbn [sample_loop]. rewrite transition_model_single_page.
    cbn [dict_lookup dict_get dict_set bind String.eqb Ascii.eqb Bool.eqb].
    cbn [dict_keys dict_values map fst snd].
    unfold random_choices. cbn [accumulate running_sums length Nat.eqb negb last].
    rewrite Hpos, Hfin. cbn [negb Nat.sub bisect bisect_loop lookup list_lookup bind].
    rewrite IH. do 3 f_equal. lia.
Qed.

(** The sampler on one page: the counter of [A] is [n] and its rank
    [n / n]. *)
Lemma sample_pagerank_single_page (src : RandomSource R) (damping_factor : R) (n : Z) :
  leb (add w (of_int 0)) (of_int 0) = false →
  isfinite (add w (of_int 0)) = true →
  1 ≤ n →
  sample_counts src single_page damping_factor n = Ok [("A", n)] ∧
  sample_pagerank src single_page damping_factor n
  = Ok [("A", quot (of_int n) (of_int n))].
Proof.
  intros Hpos Hfin Hn.
  assert (sample_counts src single_page damping_factor n = Ok [("A", n)]) as Hc.
  { unfold sample_counts, random_choice.
    cbn [single_page dict_keys map fst length lookup list_lookup].
    rewrite Nat.mod_1_r.
    cbn [lookup list_lookup bind dict_fromkeys fold_left dict_set].
    rewrite sample_loop_single_page by done. do 3 f_equal. lia. }
  split; [done|]. unfold sample_pagerank. rewrite Hc.
  cbn [bind dict_comprehension for_each fst snd]. unfold py_true_div.
  destruct (Z.eqb_spec n 0); [lia|]. reflexivity.
Qed.

(** The iteration on one page: the first round ends the loop. *)
Lemma iterate_pagerank_single_page (damping_factor : R) (fuel : nat) :
  ltb (add (of_int 0) (absolute (sub (add (of_int 0) (mul w w)) w))) lit_1e_3 = true →
  is_zero (add (of_int 0) w) = false →
  iterate_pagerank (S fuel) single_page damping_factor
  = Ok (Some [("A", quot w (add (of_int 0) w))]).
Proof.
  intros Hlt Hnz. unfold iterate_pagerank.
  change (initial_rank single_page) with (Ok [("A", w)]).
  cbn [bind power_loop].
  change (next_rank single_page damping_factor [("A", w)])
    with (Ok [("A", add (of_int 0) (mul w w))]).
  cbn [bind].
  change (l1_distance single_page [("A", add (of_int 0) (mul w w))] [("A", w)])
    with (Ok (add (of_int 0) (absolute (sub (add (of_int 0) (mul w w)) w)))).
  cbn [bind]. rewrite Hlt. cbn [bind].
  unfold normalize, py_sum, py_div.
  cbn [dict_values map snd fold_left dict_comprehension for_each fst snd].
  rewrite Hnz. reflexivity.
Qed.
End SinglePage.

(** ** Binary64: dividing a number by itself

    [n / n] is [1.0] for every integer that binary64 holds exactly.  The
    proof reads the division and the conversion through their
    specifications in [SpecFloat]. *)

Lemma div_eucl_shift (m : positive) :
  Z.div_eucl (Z.shiftl (Z.pos m) 53) (Z.pos m) = (2 ^ 53, 0).
Proof.
  rewrite Z.shiftl_mul_pow2 by lia.
  pose proof (Z.div_mul (2 ^ 53) (Z.pos m) ltac:(lia)) as Hq.
  pose proof (Z.mod_mul (2 ^ 53) (Z.pos m) ltac:(lia)) as Hr.
  rewrite (Z.mul_comm (Z.pos m)).
  unfold Z.div, Z.modulo in Hq, Hr.
  destruct (Z.div_eucl (2 ^ 53 * Z.pos m) (Z.pos m)) as [q r].
  cbn [fst snd] in Hq, Hr. subst. reflexivity.
Qed.

Lemma div_self_spec (s : bool) (m : positive) (e : Z) :
  SF64div (S754_finite s m e) (S754_finite s m e) = Prim2SF 1%float.
Proof.
  unfold SF64div, SFdiv. unfold SFdiv_core_binary.
  replace (Zdigits2 (Zpos m) + e - (Zdigits2 (Zpos m) + e)) with 0 by lia.
  replace (e - e) with 0 by lia.
  change (Z.min (fexp prec emax 0) 0) with (-53).
  change (0 - -53) with 53.
  cbv beta iota zeta.
  change (IntDef.Z.div_eucl (IntDef.Z.shiftl (Z.pos m) 53) (Z.pos m))
    with (Z.div_eucl (Z.shiftl (Z.pos m) 53) (Z.pos m)).
  rewrite div_eucl_shift.
  replace (xorb s s) with false by (destruct s; reflexivity).
  assert (new_location (Z.pos m) 0 = loc_Exact) as ->.
  { unfold new_location. destruct (Z.even (Z.pos m)); reflexivity. }
  vm_compute. reflexivity.
Qed.

Lemma f64_div_self (x : float) (s : bool) (m : positive) (e : Z) :
  Prim2SF x = S754_finite s m e → (x / x)%float = 1%float.
Proof.
  intros Hx. rewrite <- (SF2Prim_Prim2SF (x / x)), div_spec, Hx, div_self_spec.
  apply SF2Prim_Prim2SF.
Qed.

Lemma digits2_pos_iter_xO (p k : positive) :
  digits2_pos (Pos.iter xO p k) = (digits2_pos p + k)%positive.
Proof.
  induction k as [|k IH] using Pos.peano_ind.
  - simpl. lia.
  - rewrite Pos.iter_succ. simpl. rewrite IH. lia.
Qed.

Lemma digits2_pos_lower (p : positive) : 2 ^ (Z.pos (digits2_pos p) - 1) ≤ Z.pos p.
Proof.
  induction p as [p IH|p IH|]; simpl digits2_pos.
  - rewrite Pos2Z.inj_succ. replace (Z.succ (Z.pos (digits2_pos p)) - 1)
      with (Z.succ (Z.pos (digits2_pos p) - 1)) by lia.
    rewrite Z.pow_succ_r by lia. lia.
  - rewrite Pos2Z.inj_succ. replace (Z.succ (Z.pos (digits2_pos p)) - 1)
      with (Z.succ (Z.pos (digits2_pos p) - 1)) by lia.
    rewrite Z.pow_succ_r by lia. lia.
  - simpl. lia.
Qed.

Lemma digits2_pos_small (p : positive) : Z.pos p < 2 ^ 53 → Z.pos (digits2_pos p) ≤ 53.
Proof.
  intros Hp. destruct (Z.le_gt_cases (Z.pos (digits2_pos p)) 53) as [|Hd]; [assumption|].
  pose proof (digits2_pos_lower p) as Hl.
  pose proof (Z.pow_le_mono_r 2 53 (Z.pos (digits2_pos p) - 1) ltac:(lia) ltac:(lia)). lia.
Qed.

Lemma binary_round_aux_fit (s : bool) (mz : positive) (ez : Z) :
  fexp prec emax (Z.pos (digits2_pos mz) + ez) = ez →
  ez ≤ emax - prec →
  binary_round_aux prec emax s (Z.pos mz) ez loc_Exact = S754_finite s mz ez.
Proof.
  intros Hf He. unfold binary_round_aux, shr_fexp.
  cbn [Zdigits2]. rewrite Hf, Z.sub_diag. cbn [shr shr_record_of_loc].
  cbn [shr_m loc_of_shr_record round_nearest_even Zdigits2].
  rewrite Hf, Z.sub_diag. cbn [shr shr_record_of_loc shr_m].
  destruct (Z.leb_spec ez (emax - prec)); [reflexivity | lia].
Qed.

Lemma binary_round_small (p : positive) :
  Z.pos p < 2 ^ 53 →
  ∃ m e, binary_round prec emax false p 0 = S754_finite false m e.
Proof.
  intros Hp. pose proof (digits2_pos_small p Hp) as Hd.
  unfold binary_round, shl_align.
  assert (fexp prec emax (Z.pos (digits2_pos p) + 0) = Z.pos (digits2_pos p) - 53) as ->.
  { unfold fexp, emin, emax, prec. lia. }
  destruct (Z.pos (digits2_pos p) - 53 - 0) as [|k|k] eqn:Hk; [|lia|].
  - eexists _, _. apply binary_round_aux_fit.
    + unfold fexp, emin, emax, prec. lia.
    + unfold emax, prec. lia.
  - eexists _, _. apply binary_round_aux_fit.
    + rewrite digits2_pos_iter_xO. unfold fexp, emin, emax, prec. lia.
    + unfold emax, prec. lia.
Qed.

Lemma of_uint63_finite (n : Z) :
  1 ≤ n < 2 ^ 53 →
  ∃ m e, Prim2SF (of_uint63 (Uint63.of_Z n)) = S754_finite false m e.
Proof.
  intros Hn. rewrite of_uint63_spec, Uint63.of_Z_spec.
  assert (2 ^ 53 < wB) as Hw by (apply Z.ltb_lt; vm_compute; reflexivity).
  rewrite Z.mod_small by lia.
  destruct n as [|p|p]; [lia| |lia]. apply binary_round_small. lia.
Qed.

Lemma f64_of_int_div_self (n : Z) :
  1 ≤ n < 2 ^ 53 → PrimFloat.div (f64_of_int n) (f64_of_int n) = 1%float.
Proof.
  intros Hn. destruct (of_uint63_finite n Hn) as (m & e & Hx).
  destruct n as [|p|p]; [lia| |lia]. eapply f64_div_self, Hx.
Qed.

(** C10. On the graph whose only page [A] is dangling, [sample_pagerank]
    returns [{A: 1}] for every source, every damping factor and every
    [n ≥ 1], and [iterate_pagerank] leaves its loop in the first round and
    returns [{A: 1}]: in exact arithmetic for every [n], and in binary64 for
    every [n] that converts to a float without rounding. *)
Theorem single_page_rank_is_one (n : Z) (fuel : nat) :
  1 ≤ n →
  (∀ (src : RandomSource Qc) (damping_factor : Qc),
     sample_pagerank src single_page damping_factor n = Ok [("A", 1%Qc)]) ∧
  (∀ damping_factor : Qc,
     iterate_pagerank (S fuel) single_page damping_factor = Ok (Some [("A", 1%Qc)])) ∧
  (∀ (src : RandomSource float) (damping_factor : float),
     n < 2 ^ 53 →
     sample_pagerank src single_page damping_factor n = Ok [("A", 1%float)]) ∧
  (∀ damping_factor : float,
     iterate_pagerank (S fuel) single_page damping_factor = Ok (Some [("A", 1%float)])).
Proof.
  intros Hn. split_and!.
  - intros src d.
    destruct (sample_pagerank_single_page src d n) as [_ Hs];
      [by vm_compute | by vm_compute | done |].
    rewrite Hs. apply (f_equal (λ x : Qc, Ok [("A", x)])).
    assert (of_int (R:=Qc) n ≠ 0%Qc) by (intros E%of_int_qc_zero; lia).
    qc_ops. by field.
  - intros d. rewrite iterate_pagerank_single_page; [|by vm_compute..].
    apply (f_equal (λ x : Qc, Ok (Some [("A", x)]))). by apply Qc_is_canon.
  - intros src d Hn'.
    destruct (sample_pagerank_single_page src d n) as [_ Hs];
      [by vm_compute | by vm_compute | done |].
    rewrite Hs. apply (f_equal (λ x : float, Ok [("A", x)])).
    apply f64_of_int_div_self. lia.
  - intros d. rewrite iterate_pagerank_single_page; [done|by vm_compute..].
Qed.

Lemma single_page_rank_is_one_witness :
  (∀ (src : RandomSource Qc) (damping_factor : Qc),
     sample_pagerank src single_page damping_factor 10000 = Ok [("A", 1%Qc)]) ∧
  (∀ damping_factor : Qc,
     iterate_pagerank 1 single_page damping_factor = Ok (Some [("A", 1%Qc)])) ∧
  (∀ (src : RandomSource float) (damping_factor : float),
     10000 < 2 ^ 53 →
     sample_pagerank src single_page damping_factor 10000 = Ok [("A", 1%float)]) ∧
  (∀ damping_factor : float,
     iterate_pagerank 1 single_page damping_factor = Ok (Some [("A", 1%float)])).
Proof. apply (single_page_rank_is_one 10000 0). lia. Defined.

(** ** Runs in binary64

    The theorems stated in exact arithmetic, seen on binary64 at the
    constants of the module: the model of each page of the example graphs
    sums to 1 within [1e-9], and a walk of [SAMPLES] steps leaves counters
    that sum to [SAMPLES]. *)

Example transition_model_sums_to_one_f64 :
  sums_to_one_f64 two_cycle = true ∧
  sums_to_one_f64 dangling_pair = true ∧
  sums_to_one_f64 single_page = true.
Proof. split_and!; by vm_compute. Qed.

Example sample_counts_f64 :
  ∃ counts,
    sample_counts (fixed_source 0 0.5%float) dangling_pair DAMPING SAMPLES = Ok counts ∧
    dict_keys counts = ["A"; "B"] ∧
    Z_total (dict_values counts) = SAMPLES.
Proof.
  destruct (sample_counts (fixed_source 0 0.5%float) dangling_pair DAMPING SAMPLES)
    as [counts|e] eqn:E; vm_compute in E; [|discriminate].
  exists counts. injection E as <-. split; by vm_compute.
Qed.

(** * Further properties of the code *)

(** ** The loop of iterate_pagerank stops at the first close round *)

Section FirstCloseRound.
Context {R : Type} `{Arith R}.

(** X1. When [iterate_pagerank] returns, it stopped at the first round whose
    L1 distance is below [1e-3]: every earlier round found a distance that
    is not below it, and the result is the vector that entered the stopping
    round, normalised. *)
Theorem iterate_pagerank_stops_at_first_close_round (corpus : corpus_t)
    (damping_factor : R) (fuel : nat) (ranks : dict R) :
  iterate_pagerank fuel corpus damping_factor = Ok (Some ranks) →
  ∃ start k pagerank,
    initial_rank corpus = Ok start ∧
    (k < fuel)%nat ∧
    (∀ j, (j < k)%nat →
       ∃ diff, round_distance corpus damping_factor start j = Ok diff ∧
               ltb diff lit_1e_3 = false) ∧
    (∃ diff, round_distance corpus damping_factor start k = Ok diff ∧
             ltb diff lit_1e_3 = true) ∧
    rank_after corpus damping_factor k start = Ok pagerank ∧
    normalize pagerank = Ok ranks.
Proof.
  unfold iterate_pagerank. intros Hit.
  apply bind_Ok in Hit as (start & Hstart & Hit).
  apply bind_Ok in Hit as ([[pagerank new_prob]|] & Hloop & Hit); [|done].
  apply bind_Ok in Hit as (ranks' & Hnorm & [= <-]).
  apply power_loop_first_close in Hloop as (k & Hk & Hrank & Hbefore & Hat).
  exists start, k, pagerank. done.
Qed.
End FirstCloseRound.

Lemma iterate_pagerank_stops_at_first_close_round_witness :
  ∃ start k pagerank,
    initial_rank dangling_pair = Ok start ∧
    (k < 10)%nat ∧
    (∀ j, (j < k)%nat →
       ∃ diff, round_distance dangling_pair 0.5%float start j = Ok diff ∧
               ltb diff lit_1e_3 = false) ∧
    (∃ diff, round_distance dangling_pair 0.5%float start k = Ok diff ∧
             ltb diff lit_1e_3 = true) ∧
    rank_after dangling_pair 0.5%float k start = Ok pagerank ∧
    normalize pagerank = Ok [("A", 0.400390625%float); ("B", 0.599609375%float)].
Proof.
  apply (iterate_pagerank_stops_at_first_close_round dangling_pair 0.5%float 10).
  vm_compute. reflexivity.
Defined.

(** ** The walk reads its source only so far *)

Section DrawsRead.
Context {R : Type} `{Arith R}.

Lemma bisect_in_population (population : list string) (a : list R) (x : R) :
  population ≠ [] →
  is_Some (population !! bisect a x 0 (length population - 1)).
Proof.
  intros Hne. apply lookup_lt_is_Some_2.
  pose proof (bisect_loop_bounds (length population - 1 - 0) a x 0
                (length population - 1)) as Hb.
  fold (bisect a x 0 (length population - 1)) in Hb.
  destruct population; [done|]. cbn [length] in *. lia.
Qed.

(** Whether [random.choices] raises, and what, does not depend on the draw. *)
Lemma random_choices_same_outcome (u u' : R) (population : list string)
    (weights : list R) :
  match random_choices u population weights with
  | Ok _ => ∃ p', random_choices u' population weights = Ok p'
  | Raise e => random_choices u' population weights = Raise e
  end.
Proof.
  unfold random_choices.
  destruct (negb (length (accumulate weights) =? length population)%nat) eqn:Hlen;
    [done|].
  destruct (last (accumulate weights)) as [w_last|] eqn:Hlast; [|done].
  destruct (leb (add w_last (of_int 0)) (of_int 0)); [done|].
  destruct (negb (isfinite (add w_last (of_int 0)))); [done|].
  assert (population ≠ []) as Hne.
  { apply negb_false_iff, Nat.eqb_eq in Hlen. intros ->.
    destruct (accumulate weights); [done | discriminate]. }
  destruct (bisect_in_population population (accumulate weights)
              (mul u (add w_last (of_int 0))) Hne) as [p ->].
  destruct (bisect_in_population population (accumulate weights)
              (mul u' (add w_last (of_int 0))) Hne) as [p' ->].
  eauto.
Qed.

Lemma sample_loop_draws_read (src src' : RandomSource R) (corpus : corpus_t)
    (damping_factor : R) (steps t : nat) (page : string) (count_page : dict Z) :
  (∀ j, (j + 1 < steps)%nat → unit_draw src (t + j) = unit_draw src' (t + j)) →
  sample_loop src corpus damping_factor steps t page count_page
  = sample_loop src' corpus damping_factor steps t page count_page.
Proof.
  revert t page count_page.
  induction steps as [|steps IH]; intros t page count_page Hsame; [done|].
  cbn [sample_loop].
  destruct (dict_lookup count_page page) as [c|e]; [|done]. cbn [bind].
  destruct (transition_model corpus page damping_factor) as [model|e]; [|done].
  cbn [bind]. destruct steps as [|steps].
  - pose proof (random_choices_same_outcome (unit_draw src t) (unit_draw src' t)
                  (dict_keys model) (dict_values model)) as Hout.
    destruct (random_choices (unit_draw src t) _ _) as [p|e].
    + destruct Hout as [p' ->]. reflexivity.
    + by rewrite Hout.
  - pose proof (Hsame 0%nat ltac:(lia)) as H0. rewrite Nat.add_0_r in H0.
    rewrite <- H0.
    destruct (random_choices (unit_draw src t) _ _) as [p|e]; [|done].
    cbn [bind]. apply IH. intros j Hj.
    replace (S t + j)%nat with (t + S j)%nat by lia. apply Hsame. lia.
Qed.

(** X2. A walk of [n] steps reads the start page and the first [n - 1] draws
    of [random()] only: the page drawn in the last step is never visited,
    so two sources that agree up to there give the same result, errors
    included. *)
Theorem sample_pagerank_ignores_last_draw (src src' : RandomSource R) (corpus : corpus_t)
    (damping_factor : R) (n : Z) :
  first_draw src = first_draw src' →
  (∀ t, Z.of_nat t + 1 < n → unit_draw src t = unit_draw src' t) →
  sample_pagerank src corpus damping_factor n
  = sample_pagerank src' corpus damping_factor n.
Proof.
  intros Hfirst Hsame. unfold sample_pagerank, sample_counts.
  assert (random_choice src (dict_keys corpus) = random_choice src' (dict_keys corpus))
    as <- by (unfold random_choice; by rewrite Hfirst).
  destruct (random_choice src (dict_keys corpus)) as [start|e]; [|done].
  cbn [bind]. rewrite (sample_loop_draws_read src src'); [done|].
  intros j Hj. apply Hsame. lia.
Qed.
End DrawsRead.

Lemma sample_pagerank_ignores_last_draw_witness :
  sample_pagerank
    {| first_draw := 1; unit_draw := λ t, if (t <? 2)%nat then 0.5%float else 0%float |}
    two_cycle 0.5%float 3
  = sample_pagerank
      {| first_draw := 1; unit_draw := λ t, if (t <? 2)%nat then 0.5%float else 1%float |}
      two_cycle 0.5%float 3.
Proof.
  apply sample_pagerank_ignores_last_draw.
  - reflexivity.
  - intros t Ht. cbn [unit_draw].
    destruct (Nat.ltb_spec t 2) as [|Hge]; [reflexivity | lia].
Defined.

(** ** What crawl keeps *)

Lemma dict_keys_set_elem {V : Type} (d : dict V) (k k' : string) (v : V) :
  k' ∈ dict_keys (dict_set d k v) ↔ k' = k ∨ k' ∈ dict_keys d.
Proof.
  rewrite dict_keys_set. case_bool_decide as Hin.
  - split; [by right | by intros [->|?]].
  - rewrite elem_of_app, list_elem_of_singleton. tauto.
Qed.

Lemma dict_get_map_values {V W : Type} (h : V → W) (d : dict V) (k : string) :
  dict_get (map (λ kv, (kv.1, h kv.2)) d) k = h <$> dict_get d k.
Proof.
  induction d as [|[k0 v0] d IH]; simpl; [done|].
  by destruct (String.eqb_spec k k0).
Qed.

Lemma crawl_first_pass_keys (directory : list (string * list string))
    (pages : dict (gset string)) (f : string) :
  f ∈ dict_keys (crawl_first_pass directory pages)
  ↔ f ∈ dict_keys pages ∨ (endswith f ".html" = true ∧ f ∈ map fst directory).
Proof.
  revert pages. induction directory as [|[g hs] directory IH]; intros pages.
  - simpl. split; [by left|]. intros [?|[_ ?%not_elem_of_nil]]; done.
  - cbn [crawl_first_pass fold_left map fst snd].
    fold (crawl_first_pass directory
            (if negb (endswith g ".html") then pages
             else dict_set pages g (list_to_set hs ∖ {[g]}))).
    rewrite IH, elem_of_cons. destruct (endswith g ".html") eqn:Hg; cbn [negb].
    + rewrite dict_keys_set_elem. split.
      * intros [[->|?]|[? ?]]; [right; split; [done | by left] | by left | right; tauto].
      * intros [?|[? [->|?]]]; [left; by right | left; by left | right; tauto].
    + split.
      * intros [?|[? ?]]; [by left | right; tauto].
      * intros [?|[Hf [->|?]]]; [by left | congruence | right; tauto].
Qed.

Lemma crawl_first_pass_get_other (directory : list (string * list string))
    (pages : dict (gset string)) (f : string) :
  f ∉ map fst directory →
  dict_get (crawl_first_pass directory pages) f = dict_get pages f.
Proof.
  revert pages. induction directory as [|[g hs] directory IH]; intros pages Hf; [done|].
  cbn [map fst] in Hf. apply not_elem_of_cons in Hf as [Hne Hf].
  cbn [crawl_first_pass fold_left fst snd].
  fold (crawl_first_pass directory
          (if negb (endswith g ".html") then pages
           else dict_set pages g (list_to_set hs ∖ {[g]}))).
  rewrite IH by done. destruct (negb _); [done|]. by apply dict_get_set_ne.
Qed.

Lemma crawl_first_pass_get (directory : list (string * list string))
    (pages : dict (gset string)) (f : string) (hrefs : list string) :
  NoDup (map fst directory) →
  (f, hrefs) ∈ directory →
  endswith f ".html" = true →
  dict_get (crawl_first_pass directory pages) f = Some (list_to_set hrefs ∖ {[f]}).
Proof.
  revert pages. induction directory as [|[g hs] directory IH]; intros pages Hnd Hin Hf.
  - by apply not_elem_of_nil in Hin.
  - cbn [map fst] in Hnd. apply NoDup_cons in Hnd as [Hg Hnd].
    cbn [crawl_first_pass fold_left fst snd].
    fold (crawl_first_pass directory
            (if negb (endswith g ".html") then pages
             else dict_set pages g (list_to_set hs ∖ {[g]}))).
    apply elem_of_cons in Hin as [[= <- <-]|Hin].
    + rewrite crawl_first_pass_get_other by done.
      rewrite Hf. cbn [negb]. apply dict_get_set_eq.
    + by apply IH.
Qed.

(** X3. The pages of the graph that [crawl] returns are exactly the listed
    file names that end in [.html], each once. *)
Theorem crawl_pages_are_the_html_files (directory : list (string * list string)) :
  ∃ graph,
    crawl directory = Ok graph ∧
    NoDup (dict_keys graph) ∧
    ∀ f, f ∈ dict_keys graph ↔ endswith f ".html" = true ∧ f ∈ map fst directory.
Proof.
  eexists. split; [apply crawl_closed_form|].
  set (pages := crawl_first_pass directory []).
  assert (dict_keys (map (λ kv : string * gset string,
                       (kv.1, filter (λ link, Is_true (dict_mem link pages)) kv.2)) pages)
          = dict_keys pages) as ->.
  { unfold dict_keys. rewrite map_map. done. }
  split; [apply crawl_first_pass_wf, NoDup_nil_2|].
  intros f. unfold pages. rewrite crawl_first_pass_keys.
  split; [intros [?%not_elem_of_nil|?]; done | by right].
Qed.

(** X4. When the listing has no file name twice, the outbound set that
    [crawl] gives a page holds exactly the [href] values of its file that
    are pages of the corpus other than the page itself. *)
Theorem crawl_links_are_the_inner_hrefs (directory : list (string * list string))
    (f : string) (hrefs : list string) :
  NoDup (map fst directory) →
  (f, hrefs) ∈ directory →
  endswith f ".html" = true →
  ∃ graph links,
    crawl directory = Ok graph ∧
    dict_get graph f = Some links ∧
    ∀ q, q ∈ links ↔
         q ∈ hrefs ∧ q ≠ f ∧ endswith q ".html" = true ∧ q ∈ map fst directory.
Proof.
  intros Hnd Hin Hf. eexists _, _. split; [apply crawl_closed_form|].
  rewrite dict_get_map_values, (crawl_first_pass_get _ _ _ _ Hnd Hin Hf).
  split; [done|]. intros q.
  rewrite elem_of_filter, dict_mem_keys, crawl_first_pass_keys.
  rewrite elem_of_difference, elem_of_list_to_set, elem_of_singleton.
  split.
  - intros [[?%not_elem_of_nil|[? ?]] [? ?]]; done.
  - intros (? & ? & ? & ?). split; [by right | done].
Qed.

Lemma crawl_links_are_the_inner_hrefs_witness :
  ∃ graph links,
    crawl [("1.html", ["2.html"; "1.html"; "x.html"]); ("2.html", ["1.html"]);
           ("notes.txt", ["1.html"])]
      = Ok graph ∧
    dict_get graph "1.html" = Some links ∧
    ∀ q, q ∈ links ↔
         q ∈ ["2.html"; "1.html"; "x.html"] ∧ q ≠ "1.html" ∧
         endswith q ".html" = true ∧
         q ∈ map fst [("1.html", ["2.html"; "1.html"; "x.html"]); ("2.html", ["1.html"]);
                      ("notes.txt", ["1.html"])].
Proof.
  apply crawl_links_are_the_inner_hrefs.
  - apply (bool_decide_unpack _). vm_compute. exact I.
  - apply (bool_decide_unpack _). vm_compute. exact I.
  - reflexivity.
Defined.

(** ** What the sampler keeps, in any arithmetic *)

Lemma dict_set_values {V : Type} (d : dict V) (k : string) (v x : V) :
  x ∈ dict_values (dict_set d k v) → x = v ∨ x ∈ dict_values d.
Proof.
  unfold dict_values. intros Hx. apply list_elem_of_In, in_map_iff in Hx as ([k' x'] & <- & Hin).
  apply list_elem_of_In, dict_set_entry in Hin as [[= -> ->]|Hin]; [by left|].
  right. apply list_elem_of_In, in_map_iff. exists (k', x').
  split; [done | by apply list_elem_of_In].
Qed.

Lemma dict_get_Some_values {V : Type} (d : dict V) (k : string) (v : V) :
  dict_get d k = Some v → v ∈ dict_values d.
Proof.
  intros Hg%dict_get_Some_entry. apply list_elem_of_In, in_map_iff.
  exists (k, v). split; [done | by apply list_elem_of_In].
Qed.

Section SamplerInvariants.
Context {R : Type} `{Arith R}.

(** The loop keeps the keys of its counters, adds one per step, and never
    makes a counter negative. *)
Lemma sample_loop_invariants (src : RandomSource R) (corpus : corpus_t)
    (damping_factor : R) (steps t : nat) (page : string) (count_page counts : dict Z) :
  sample_loop src corpus damping_factor steps t page count_page = Ok counts →
  dict_keys counts = dict_keys count_page ∧
  Z_total (dict_values counts) = Z_total (dict_values count_page) + Z.of_nat steps ∧
  ((∀ c, c ∈ dict_values count_page → 0 ≤ c) → ∀ c, c ∈ dict_values counts → 0 ≤ c).
Proof.
  revert t page count_page. induction steps as [|steps IH]; intros t page count_page.
  - cbn [sample_loop]. intros [= <-]. split_and!; [done | lia | done].
  - cbn [sample_loop]. intros Hloop.
    apply bind_Ok in Hloop as (c & Hc & Hloop).
    apply bind_Ok in Hloop as (model & Hmodel & Hloop).
    apply bind_Ok in Hloop as (next & Hnext & Hloop).
    unfold dict_lookup in Hc. destruct (dict_get count_page page) as [c'|] eqn:Hget; [|done].
    injection Hc as ->.
    destruct (IH _ _ _ Hloop) as (Hkeys & Htotal & Hnonneg). split_and!.
    + rewrite Hkeys, dict_keys_set.
      rewrite bool_decide_eq_true_2; [done | by eapply dict_get_Some_keys].
    + rewrite Htotal, (Z_total_set _ _ c) by done. lia.
    + intros Hcp. apply Hnonneg. intros x [->|Hx]%dict_set_values; [|by apply Hcp].
      apply dict_get_Some_values, Hcp in Hget. lia.
Qed.

(** The shape of what the sampler returns. *)
Lemma sample_pagerank_shape (src : RandomSource R) (corpus : corpus_t)
    (damping_factor : R) (n : Z) (ranks : dict R) :
  dict_wf corpus →
  0 ≤ n →
  sample_pagerank src corpus damping_factor n = Ok ranks →
  ∃ counts,
    sample_counts src corpus damping_factor n = Ok counts ∧
    dict_keys counts = dict_keys corpus ∧
    (∀ c, c ∈ dict_values counts → 0 ≤ c) ∧
    Z_total (dict_values counts) = n ∧
    ranks = map (λ kv, (kv.1, quot (of_int kv.2) (of_int n))) counts ∧
    dict_keys ranks = dict_keys corpus.
Proof.
  intros Hwf Hn Hs. unfold sample_pagerank in Hs.
  apply bind_Ok in Hs as (counts & Hcounts & Hranks).
  exists counts. split; [done|].
  unfold sample_counts in Hcounts.
  apply bind_Ok in Hcounts as (start & _ & Hloop).
  rewrite (dict_fromkeys_wf _ _ Hwf) in Hloop.
  apply sample_loop_invariants in Hloop as (Hkeys & Htotal & Hnonneg).
  rewrite dict_keys_map in Hkeys.
  rewrite dict_values_map, Z_total_zeros, Z2Nat.id in Htotal by done.
  assert (ranks = map (λ kv, (kv.1, quot (of_int (R:=R) kv.2) (of_int n))) counts) as ->.
  { destruct (Z.eqb_spec n 0) as [->|Hn0].
    - destruct counts as [|[k c] counts]; [by injection Hranks as <-|].
      cbn in Hranks. done.
    - rewrite (dict_comprehension_wf _ (λ _ c, quot (of_int c) (of_int n))) in Hranks.
      + by injection Hranks as <-.
      + unfold dict_wf. by rewrite Hkeys.
      + intros k v _. unfold py_true_div. by destruct (Z.eqb_spec n 0). }
  split_and!; [done | | lia | done |].
  - apply Hnonneg. rewrite dict_values_map.
    intros c Hc. apply list_elem_of_In, in_map_iff in Hc as (? & <- & _). done.
  - unfold dict_keys. rewrite map_map. done.
Qed.

(** X7. In any arithmetic, binary64 included: whenever [sample_pagerank]
    returns for some [n ≥ 0], the counters of its walk are non-negative, one
    per page of the graph and in the graph's order, they sum to exactly [n],
    and the result is each counter divided by [n], under the same keys. *)
Theorem sample_pagerank_result_shape (src : RandomSource R) (corpus : corpus_t)
    (damping_factor : R) (n : Z) (ranks : dict R) :
  dict_wf corpus →
  0 ≤ n →
  sample_pagerank src corpus damping_factor n = Ok ranks →
  ∃ counts,
    sample_counts src corpus damping_factor n = Ok counts ∧
    dict_keys counts = dict_keys corpus ∧
    (∀ c, c ∈ dict_values counts → 0 ≤ c) ∧
    Z_total (dict_values counts) = n ∧
    ranks = map (λ kv, (kv.1, quot (of_int kv.2) (of_int n))) counts ∧
    dict_keys ranks = dict_keys corpus.
Proof. apply sample_pagerank_shape. Qed.
End SamplerInvariants.

Lemma sample_pagerank_result_shape_witness :
  ∃ counts,
    sample_counts (fixed_source 0 0.5%float) two_cycle 0.5%float 4 = Ok counts ∧
    dict_keys counts = dict_keys two_cycle ∧
    (∀ c, c ∈ dict_values counts → 0 ≤ c) ∧
    Z_total (dict_values counts) = 4 ∧
    [("A", 0.5%float); ("B", 0.5%float)]
      = map (λ kv, (kv.1, quot (of_int kv.2) (of_int 4))) counts ∧
    dict_keys [("A", 0.5%float); ("B", 0.5%float)] = dict_keys two_cycle.
Proof.
  apply (sample_pagerank_result_shape (fixed_source 0 0.5%float) two_cycle 0.5%float 4).
  - apply (bool_decide_unpack (dict_wf _)). vm_compute. exact I.
  - lia.
  - vm_compute. reflexivity.
Defined.

(** ** The counters of the sampler *)

Lemma Z_total_bounds_first (cs : list Z) :
  (∀ x, x ∈ cs → 0 ≤ x) → 0 ≤ Z_total cs.
Proof.
  induction cs as [|x cs IH]; intros Hnn; [done|].
  cbn [Z_total foldr]. change (foldr Z.add 0 cs) with (Z_total cs).
  pose proof (Hnn x ltac:(apply list_elem_of_here)).
  pose proof (IH (λ z Hz, Hnn z (list_elem_of_further _ _ _ Hz))). lia.
Qed.

Lemma Z_total_bounds_each (cs : list Z) (c : Z) :
  (∀ x, x ∈ cs → 0 ≤ x) → c ∈ cs → c ≤ Z_total cs.
Proof.
  induction cs as [|x cs IH]; intros Hnn Hc.
  - by apply not_elem_of_nil in Hc.
  - cbn [Z_total foldr]. change (foldr Z.add 0 cs) with (Z_total cs).
    pose proof (Hnn x ltac:(apply list_elem_of_here)) as Hx.
    pose proof (Z_total_bounds_first cs
                  (λ z Hz, Hnn z (list_elem_of_further _ _ _ Hz))) as Hrest.
    apply elem_of_cons in Hc as [->|Hc]; [lia|].
    pose proof (IH (λ z Hz, Hnn z (list_elem_of_further _ _ _ Hz)) Hc). lia.
Qed.




(** ** One round of the iteration, in closed form *)

Lemma dict_get_entry_wf {V : Type} (d : dict V) (k : string) (v : V) :
  dict_wf d → (k, v) ∈ d → dict_get d k = Some v.
Proof.
  unfold dict_wf. induction d as [|[k0 v0] d IH]; intros Hnd Hin.
  - by apply not_elem_of_nil in Hin.
  - cbn [dict_keys map fst] in Hnd. apply NoDup_cons in Hnd as [Hk0 Hnd].
    cbn [dict_get]. apply elem_of_cons in Hin as [[= -> ->]|Hin].
    + by rewrite String.eqb_refl.
    + destruct (String.eqb_spec k k0) as [->|Hne]; [|by apply IH].
      exfalso. apply Hk0. apply list_elem_of_In, in_map_iff.
      exists (k0, v). split; [done | by apply list_elem_of_In].
Qed.

(** A loop that fills an empty dictionary with [g p] for every [p] of a
    list without repetition. *)
Lemma for_each_build {V : Type} (f : string → result V) (g : string → V)
    (ks : list string) :
  NoDup ks →
  (∀ p, p ∈ ks → f p = Ok (g p)) →
  for_each (λ acc p, let* v := f p in Ok (dict_set acc p v)) ks []
  = Ok (map (λ p, (p, g p)) ks).
Proof.
  assert (∀ post pre : list string,
            NoDup (pre ++ post) →
            (∀ p, p ∈ post → f p = Ok (g p)) →
            for_each (λ acc p, let* v := f p in Ok (dict_set acc p v)) post
              (map (λ p, (p, g p)) pre)
            = Ok (map (λ p, (p, g p)) (pre ++ post))) as Hgen.
  { induction post as [|p post IH]; intros pre Hnd Hf; cbn [for_each].
    - by rewrite app_nil_r.
    - rewrite (Hf p) by apply list_elem_of_here. cbn [bind].
      rewrite dict_set_absent.
      + specialize (IH (pre ++ [p])). rewrite <- app_assoc in IH. cbn [app] in IH.
        rewrite map_app in IH. apply IH; [done|].
        intros q Hq. apply Hf. by apply list_elem_of_further.
      + rewrite dict_keys_map. apply NoDup_app in Hnd as (_ & Hdisj & _).
        intros Hin. apply (Hdisj p Hin). apply list_elem_of_here. }
  intros Hnd Hf. by apply (Hgen ks []).
Qed.

Section NextRank.
Context {R : Type} `{Arith R}.

Lemma inner_loop_closed (corpus : corpus_t) (damping_factor : R) (rank : string → R)
    (p : string) (entries : list (string * gset string)) (acc : R) :
  dict_wf corpus →
  p ∈ dict_keys corpus →
  (∀ e, e ∈ entries → e ∈ corpus) →
  for_each (λ prob_links i,
      let* model_i := transition_model corpus i damping_factor in
      let* r := dict_lookup (map (λ i, (i, rank i)) (dict_keys corpus)) i in
      let* m := dict_lookup model_i p in
      Ok (add prob_links (mul r m)))
    (map fst entries) acc
  = Ok (fold_left
          (λ prob_links entry,
             add prob_links
               (mul (rank entry.1) (model_weight corpus entry.2 damping_factor p)))
          entries acc).
Proof.
  intros Hwf Hp. revert acc.
  induction entries as [|[i links] entries IH]; intros acc Hin; [done|].
  cbn [map fst for_each fold_left snd].
  assert ((i, links) ∈ corpus) as Hi by apply Hin, list_elem_of_here.
  pose proof (dict_get_entry_wf _ _ _ Hwf Hi) as Hget.
  rewrite (transition_model_closed corpus i links damping_factor Hwf Hget).
  cbn [bind]. unfold dict_lookup.
  rewrite dict_get_map by (by eapply dict_get_Some_keys).
  cbn [bind]. rewrite dict_get_map by done. cbn [bind].
  apply IH. intros e He. apply Hin. by apply list_elem_of_further.
Qed.

(** From a rank vector over the pages of the graph, one round computes the
    inflow of every page. *)
Lemma next_rank_closed (corpus : corpus_t) (damping_factor : R) (rank : string → R) :
  dict_wf corpus →
  next_rank corpus damping_factor (map (λ i, (i, rank i)) (dict_keys corpus))
  = Ok (map (λ p, (p, inflow corpus damping_factor rank p)) (dict_keys corpus)).
Proof.
  intros Hwf. unfold next_rank. apply for_each_build; [done|].
  intros p Hp. unfold inflow.
  by rewrite (inner_loop_closed corpus damping_factor rank p corpus (of_int 0) Hwf Hp).
Qed.
End NextRank.

(** ** The iteration keeps the pages, in any arithmetic *)

(** The parts of a run of [iterate_pagerank] that returns. *)
Lemma iterate_pagerank_parts {R : Type} `{Arith R}
    (corpus : corpus_t) (damping_factor : R) (fuel : nat) (ranks : dict R) :
  iterate_pagerank fuel corpus damping_factor = Ok (Some ranks) →
  ∃ start k pagerank,
    initial_rank corpus = Ok start ∧
    rank_after corpus damping_factor k start = Ok pagerank ∧
    normalize pagerank = Ok ranks.
Proof.
  unfold iterate_pagerank. intros Hit.
  apply bind_Ok in Hit as (start & Hstart & Hit).
  apply bind_Ok in Hit as ([[pagerank new_prob]|] & Hloop & Hit); [|done].
  apply bind_Ok in Hit as (ranks' & Hnorm & [= <-]).
  apply power_loop_exit in Hloop as (k & diff & Hk & _).
  exists start, k, pagerank. done.
Qed.

Lemma for_each_build_keys {V A : Type} (key : A → string) (f : A → result V)
    (xs : list A) (acc res : dict V) :
  NoDup (dict_keys acc ++ map key xs) →
  for_each (λ acc x, let* v := f x in Ok (dict_set acc (key x) v)) xs acc = Ok res →
  dict_keys res = dict_keys acc ++ map key xs.
Proof.
  revert acc. induction xs as [|x xs IH]; intros acc Hnd; cbn [for_each map].
  - intros [= <-]. by rewrite app_nil_r.
  - intros Hloop. apply bind_Ok in Hloop as (acc' & Hstep & Hloop).
    apply bind_Ok in Hstep as (v & _ & [= <-]).
    assert (key x ∉ dict_keys acc) as Hx.
    { apply NoDup_app in Hnd as (_ & Hdisj & _).
      intros Hin. apply (Hdisj _ Hin). apply list_elem_of_here. }
    assert (dict_keys (dict_set acc (key x) v) = dict_keys acc ++ [key x]) as Hkeys.
    { by rewrite dict_set_absent, dict_keys_app. }
    rewrite (IH (dict_set acc (key x) v)); [|by rewrite Hkeys, <- app_assoc|done].
    by rewrite Hkeys, <- app_assoc.
Qed.

Lemma dict_comprehension_keys {V W : Type} (f : string → V → result W) (d : dict V)
    (res : dict W) :
  dict_wf d → dict_comprehension f d = Ok res → dict_keys res = dict_keys d.
Proof.
  intros Hwf Hc. unfold dict_comprehension in Hc.
  by apply (for_each_build_keys fst (λ kv, f kv.1 kv.2)) in Hc.
Qed.

Section IterationKeys.
Context {R : Type} `{Arith R}.

Lemma next_rank_keys (corpus : corpus_t) (damping_factor : R) (pagerank new_prob : dict R) :
  dict_wf corpus →
  next_rank corpus damping_factor pagerank = Ok new_prob →
  dict_keys new_prob = dict_keys corpus.
Proof.
  intros Hwf Hn. unfold next_rank in Hn.
  apply (for_each_build_keys (λ p, p)) in Hn; [|by rewrite map_id].
  by rewrite map_id in Hn.
Qed.

Lemma rank_after_keys (corpus : corpus_t) (damping_factor : R) (k : nat)
    (start pagerank : dict R) :
  dict_wf corpus →
  dict_keys start = dict_keys corpus →
  rank_after corpus damping_factor k start = Ok pagerank →
  dict_keys pagerank = dict_keys corpus.
Proof.
  intros Hwf. revert start. induction k as [|k IH]; intros start Hstart; cbn [rank_after].
  - by intros [= <-].
  - intros Hr. apply bind_Ok in Hr as (new & Hnew & Hr).
    apply (IH new); [|done]. by eapply next_rank_keys.
Qed.

(** The keys of what the iteration returns. *)
Lemma iterate_pagerank_keys (corpus : corpus_t) (damping_factor : R)
    (fuel : nat) (ranks : dict R) :
  dict_wf corpus →
  iterate_pagerank fuel corpus damping_factor = Ok (Some ranks) →
  dict_keys ranks = dict_keys corpus.
Proof.
  intros Hwf Hit.
  destruct (iterate_pagerank_parts corpus damping_factor fuel ranks Hit)
    as (start & k & pagerank & Hstart & Hrank & Hnorm).
  pose proof (dict_comprehension_keys _ _ _ Hwf Hstart) as Hk0.
  pose proof (rank_after_keys _ _ _ _ _ Hwf Hk0 Hrank) as Hk.
  unfold normalize in Hnorm.
  apply dict_comprehension_keys in Hnorm; [congruence|].
  unfold dict_wf. by rewrite Hk.
Qed.

(** X9. In any arithmetic, binary64 included: whenever [iterate_pagerank]
    returns, its result has exactly the pages of the graph as keys, each
    once and in the graph's order. *)
Theorem iterate_pagerank_result_pages (corpus : corpus_t) (damping_factor : R)
    (fuel : nat) (ranks : dict R) :
  dict_wf corpus →
  iterate_pagerank fuel corpus damping_factor = Ok (Some ranks) →
  dict_keys ranks = dict_keys corpus.
Proof. apply iterate_pagerank_keys. Qed.
End IterationKeys.

Lemma iterate_pagerank_result_pages_witness :
  dict_keys [("A", 0.400390625%float); ("B", 0.599609375%float)] = dict_keys dangling_pair.
Proof.
  apply (iterate_pagerank_result_pages dangling_pair 0.5%float 10).
  - apply (bool_decide_unpack (dict_wf _)). vm_compute. exact I.
  - vm_compute. reflexivity.
Defined.

(** ** crawl returns a valid graph when there is a page *)

Lemma crawl_graph_valid_iff (directory : list (string * list string)) :
  ∃ graph,
    crawl directory = Ok graph ∧
    dict_wf graph ∧
    (∀ f, f ∈ dict_keys graph ↔ endswith f ".html" = true ∧ f ∈ map fst directory) ∧
    (valid_graph graph ↔ ∃ f, f ∈ map fst directory ∧ endswith f ".html" = true).
Proof.
  eexists. split; [apply crawl_closed_form|].
  set (pages := crawl_first_pass directory []).
  set (graph := map (λ kv : string * gset string,
                  (kv.1, filter (λ link, Is_true (dict_mem link pages)) kv.2)) pages).
  assert (dict_keys graph = dict_keys pages) as Hkeys.
  { unfold graph, dict_keys. rewrite map_map. done. }
  assert (dict_wf graph) as Hwf.
  { unfold dict_wf. rewrite Hkeys. apply crawl_first_pass_wf, NoDup_nil_2. }
  assert (∀ f, f ∈ dict_keys graph ↔ endswith f ".html" = true ∧ f ∈ map fst directory)
    as Hpages.
  { intros f. rewrite Hkeys. unfold pages. rewrite crawl_first_pass_keys.
    split; [intros [?%not_elem_of_nil|?]; done | by right]. }
  split_and!; [done | done |]. split.
  - intros [_ _ _ Hne]. destruct graph as [|[f links] graph'] eqn:E; [done|].
    exists f. apply and_comm, Hpages. apply list_elem_of_here.
  - intros (f & Hin & Hf). split.
    + done.
    + intros page links Hget q Hq. rewrite Hkeys.
      unfold graph in Hget.
      rewrite (dict_get_map_values
                 (λ ls, filter (λ link, Is_true (dict_mem link pages)) ls)) in Hget.
      destruct (dict_get pages page) as [ls|]; [|done]. injection Hget as <-.
      apply elem_of_filter in Hq as [Hq _]. by apply dict_mem_keys.
    + intros page links Hget.
      unfold graph in Hget.
      rewrite (dict_get_map_values
                 (λ ls, filter (λ link, Is_true (dict_mem link pages)) ls)) in Hget.
      destruct (dict_get pages page) as [ls|] eqn:Hls; [|done]. injection Hget as <-.
      intros [_ Hself]%elem_of_filter. revert Hself.
      apply (crawl_first_pass_no_self directory []);
        [by intros ? ? ?%not_elem_of_nil | by apply dict_get_Some_entry].
    + assert (f ∈ dict_keys graph) as Hfk by (by apply Hpages).
      intros E. rewrite E in Hfk. by apply not_elem_of_nil in Hfk.
Qed.

(** X13. The graph that [crawl] returns satisfies the invariants of the data
    model (no key twice, links inside the graph, no self-link, at least one
    page) exactly when the directory lists a file whose name ends in
    [.html]. *)
Theorem crawl_graph_is_valid_iff_some_page (directory : list (string * list string)) :
  ∃ graph,
    crawl directory = Ok graph ∧
    (valid_graph graph ↔ ∃ f, f ∈ map fst directory ∧ endswith f ".html" = true).
Proof.
  destruct (crawl_graph_valid_iff directory) as (graph & Hc & _ & _ & Hv). eauto.
Qed.

(** ** main *)

#[export] Instance string_leb_total : Total (λ a b : string, Is_true (String.leb a b)).
Proof.
  intros a b. destruct (String.leb_total a b) as [Hab|Hba].
  - left. by rewrite Hab.
  - right. by rewrite Hba.
Qed.

Lemma sorted_Sorted (ks : list string) :
  Sorted (λ a b, Is_true (String.leb a b)) (sorted ks).
Proof. apply (Sorted_merge_sort (λ a b : string, Is_true (String.leb a b))). Qed.

Lemma sorted_Permutation (ks : list string) : sorted ks ≡ₚ ks.
Proof. apply merge_sort_Permutation. Qed.

Section MainFacts.
Context {R : Type} `{Arith R}.
Variable format_4f : R → string.

(** The keys of what the sampler returns, for any [n]. *)
Lemma sample_pagerank_keys (src : RandomSource R) (corpus : corpus_t)
    (damping_factor : R) (n : Z) (ranks : dict R) :
  dict_wf corpus →
  sample_pagerank src corpus damping_factor n = Ok ranks →
  dict_keys ranks = dict_keys corpus.
Proof.
  intros Hwf Hs. unfold sample_pagerank in Hs.
  apply bind_Ok in Hs as (counts & Hcounts & Hranks).
  unfold sample_counts in Hcounts.
  apply bind_Ok in Hcounts as (start & _ & Hloop).
  rewrite (dict_fromkeys_wf _ _ Hwf) in Hloop.
  apply sample_loop_invariants in Hloop as (Hkeys & _ & _).
  rewrite dict_keys_map in Hkeys.
  apply dict_comprehension_keys in Hranks; [congruence|].
  unfold dict_wf. by rewrite Hkeys.
Qed.

(** Printing the pages of a dictionary raises nothing and writes one line
    per page. *)
Lemma print_pages_lines (ranks : dict R) (pages out : list string) :
  (∀ page, page ∈ pages → page ∈ dict_keys ranks) →
  ∃ lines,
    print_pages format_4f ranks pages out = (out ++ lines, None) ∧
    Forall2 (is_line_of format_4f ranks) pages lines.
Proof.
  revert out. induction pages as [|page pages IH]; intros out Hin.
  - exists []. cbn [print_pages]. by rewrite app_nil_r.
  - cbn [print_pages]. unfold dict_lookup.
    destruct (dict_get_is_Some ranks page) as [rank Hrank];
      [apply Hin, list_elem_of_here|].
    rewrite Hrank.
    destruct (IH (out ++ [page_line format_4f page rank])) as (lines & Hlines & Hall).
    { intros q Hq. apply Hin. by apply list_elem_of_further. }
    exists (page_line format_4f page rank :: lines). split.
    + rewrite Hlines. by rewrite <- app_assoc.
    + constructor; [by exists rank | done].
Qed.

Lemma print_sorted_pages (ranks : dict R) (out : list string) :
  ∃ lines,
    print_pages format_4f ranks (sorted (dict_keys ranks)) out = (out ++ lines, None) ∧
    Forall2 (is_line_of format_4f ranks) (sorted (dict_keys ranks)) lines.
Proof.
  apply print_pages_lines. intros page Hpage. by rewrite sorted_Permutation in Hpage.
Qed.

(** What a run does once the sampler has returned. *)
Lemma main_with_after_sampling (damping : R) (samples : Z) (argv : list string)
    (listdir : string → list (string * list string)) (src : RandomSource R)
    (fuel : nat) (directory : string) (graph : corpus_t) (sampled : dict R) :
  length argv = 2%nat →
  argv !! 1%nat = Some directory →
  crawl (listdir directory) = Ok graph →
  sample_pagerank src graph damping samples = Ok sampled →
  ∃ lines1,
    Forall2 (is_line_of format_4f sampled) (sorted (dict_keys graph)) lines1 ∧
    match iterate_pagerank fuel graph damping with
    | Raise e =>
        main_with format_4f damping samples argv listdir src fuel
        = {| printed :=
               ("PageRank Results from Sampling (n = " +:+ pretty samples +:+ ")") :: lines1;
             ended := Raises e |}
    | Ok None =>
        main_with format_4f damping samples argv listdir src fuel
        = {| printed :=
               ("PageRank Results from Sampling (n = " +:+ pretty samples +:+ ")") :: lines1;
             ended := StillIterating |}
    | Ok (Some iterated) =>
        ∃ lines2,
          Forall2 (is_line_of format_4f iterated) (sorted (dict_keys graph)) lines2 ∧
          main_with format_4f damping samples argv listdir src fuel
          = {| printed :=
                 ("PageRank Results from Sampling (n = " +:+ pretty samples +:+ ")")
                   :: lines1 ++ "PageRank Results from Iteration" :: lines2;
               ended := Returns |}
    end.
Proof.
  intros Hargc Hargv Hcrawl Hsampled.
  destruct (crawl_graph_valid_iff (listdir directory)) as (graph' & Hc' & Hwf & _).
  assert (graph' = graph) as -> by congruence.
  pose proof (sample_pagerank_keys _ _ _ _ _ Hwf Hsampled) as Hk1.
  destruct (print_sorted_pages sampled
              ["PageRank Results from Sampling (n = " +:+ pretty samples +:+ ")"])
    as (lines1 & Hprint1 & Hall1).
  rewrite Hk1 in Hall1. exists lines1. split; [done|].
  unfold main_with. rewrite Hargc, Hargv, Hcrawl, Hsampled. cbn [Nat.eqb negb].
  rewrite Hprint1.
  destruct (iterate_pagerank fuel graph damping) as [[iterated|]|e] eqn:Hit; [|done..].
  pose proof (iterate_pagerank_keys _ _ _ _ Hwf Hit) as Hk2.
  destruct (print_sorted_pages iterated
              ((["PageRank Results from Sampling (n = " +:+ pretty samples +:+ ")"]
                ++ lines1) ++ ["PageRank Results from Iteration"]))
    as (lines2 & Hprint2 & Hall2).
  rewrite Hk2 in Hall2. exists lines2. split; [done|].
  rewrite Hprint2. f_equal. rewrite <- !app_assoc. done.
Qed.
End MainFacts.

Section MainProperties.
Context {R : Type} `{Arith R}.
Variable format_4f : R → string.

(** X14. Run on a directory that lists no [.html] file, the program prints
    nothing and ends with the [IndexError] that [random.choice] raises on
    the empty corpus. *)
Theorem main_without_pages_raises_IndexError (damping : R) (samples : Z)
    (program directory : string) (listdir : string → list (string * list string))
    (src : RandomSource R) (fuel : nat) :
  (∀ f, f ∈ map fst (listdir directory) → endswith f ".html" = false) →
  main_with format_4f damping samples [program; directory] listdir src fuel
  = {| printed := []; ended := Raises IndexError |}.
Proof.
  intros Hnone.
  destruct (crawl_graph_valid_iff (listdir directory)) as (graph & Hcrawl & _ & Hpages & _).
  assert (graph = []) as ->.
  { destruct graph as [|[f links] graph]; [done|].
    destruct (proj1 (Hpages f) ltac:(apply list_elem_of_here)) as [Hf Hin].
    rewrite (Hnone f Hin) in Hf. done. }
  unfold main_with. cbn [length Nat.eqb negb lookup list_lookup]. by rewrite Hcrawl.
Qed.

(** X15. When the program returns, it has printed the two reports in full:
    the sampling header, one line per page of the corpus, the iteration
    header, and again one line per page; in both reports the pages come in
    ascending order, each page of the crawled graph once, with its rank. *)
Theorem main_prints_two_sorted_reports (damping : R) (samples : Z)
    (program directory : string) (listdir : string → list (string * list string))
    (src : RandomSource R) (fuel : nat) :
  ended (main_with format_4f damping samples [program; directory] listdir src fuel)
    = Returns →
  ∃ graph sampled iterated lines1 lines2,
    crawl (listdir directory) = Ok graph ∧
    sample_pagerank src graph damping samples = Ok sampled ∧
    iterate_pagerank fuel graph damping = Ok (Some iterated) ∧
    printed (main_with format_4f damping samples [program; directory] listdir src fuel)
    = ("PageRank Results from Sampling (n = " +:+ pretty samples +:+ ")")
        :: lines1 ++ "PageRank Results from Iteration" :: lines2 ∧
    Forall2 (is_line_of format_4f sampled) (sorted (dict_keys graph)) lines1 ∧
    Forall2 (is_line_of format_4f iterated) (sorted (dict_keys graph)) lines2 ∧
    Sorted (λ a b, Is_true (String.leb a b)) (sorted (dict_keys graph)) ∧
    sorted (dict_keys graph) ≡ₚ dict_keys graph.
Proof.
  intros Hret.
  destruct (crawl_graph_valid_iff (listdir directory)) as (graph & Hcrawl & _).
  destruct (sample_pagerank src graph damping samples) as [sampled|e] eqn:Hs.
  - destruct (main_with_after_sampling format_4f damping samples [program; directory]
                listdir src fuel directory graph sampled eq_refl eq_refl Hcrawl Hs)
      as (lines1 & Hall1 & Hmain).
    destruct (iterate_pagerank fuel graph damping) as [[iterated|]|e] eqn:Hit.
    + destruct Hmain as (lines2 & Hall2 & Hmain).
      exists graph, sampled, iterated, lines1, lines2.
      split_and!; [done | done | done | by rewrite Hmain | done | done | |].
      * apply sorted_Sorted.
      * apply sorted_Permutation.
    + by rewrite Hmain in Hret.
    + by rewrite Hmain in Hret.
  - unfold main_with in Hret.
    cbn [length Nat.eqb negb lookup list_lookup] in Hret.
    by rewrite Hcrawl, Hs in Hret.
Qed.

(** X16. The sampling report is printed before the iteration starts: when
    the sampler has returned and the iteration raises or is still running,
    exactly the sampling header and its page lines have been printed. *)
Theorem main_prints_sampling_report_first (damping : R) (samples : Z)
    (program directory : string) (listdir : string → list (string * list string))
    (src : RandomSource R) (fuel : nat) (graph : corpus_t) (sampled : dict R) :
  crawl (listdir directory) = Ok graph →
  sample_pagerank src graph damping samples = Ok sampled →
  ended (main_with format_4f damping samples [program; directory] listdir src fuel)
    ≠ Returns →
  ∃ lines1,
    printed (main_with format_4f damping samples [program; directory] listdir src fuel)
    = ("PageRank Results from Sampling (n = " +:+ pretty samples +:+ ")") :: lines1 ∧
    Forall2 (is_line_of format_4f sampled) (sorted (dict_keys graph)) lines1.
Proof.
  intros Hcrawl Hs Hret.
  destruct (main_with_after_sampling format_4f damping samples [program; directory]
              listdir src fuel directory graph sampled eq_refl eq_refl Hcrawl Hs)
    as (lines1 & Hall1 & Hmain).
  exists lines1. split; [|done].
  destruct (iterate_pagerank fuel graph damping) as [[iterated|]|e].
  - destruct Hmain as (lines2 & _ & Hmain). by rewrite Hmain in Hret.
  - by rewrite Hmain.
  - by rewrite Hmain.
Qed.
End MainProperties.

Lemma main_without_pages_raises_IndexError_witness :
  main (λ _, "?") ["pagerank.py"; "corpus"] (λ _, [("notes.txt", ["a.html"])])
    (fixed_source 0 0.5%float) 100
  = {| printed := []; ended := Raises IndexError |}.
Proof.
  apply (main_without_pages_raises_IndexError (λ _, "?") DAMPING SAMPLES).
  intros f Hf. cbn [map fst] in Hf.
  apply list_elem_of_singleton in Hf as ->. reflexivity.
Defined.

Lemma main_prints_two_sorted_reports_witness :
  ∃ graph sampled iterated lines1 lines2,
    crawl two_page_directory = Ok graph ∧
    sample_pagerank (fixed_source 0 0.5%float) graph 0.5%float 4 = Ok sampled ∧
    iterate_pagerank 100 graph 0.5%float = Ok (Some iterated) ∧
    printed (main_with (λ _, "?") 0.5%float 4 ["pagerank.py"; "corpus"]
               (λ _, two_page_directory) (fixed_source 0 0.5%float) 100)
    = ("PageRank Results from Sampling (n = " +:+ pretty 4 +:+ ")")
        :: lines1 ++ "PageRank Results from Iteration" :: lines2 ∧
    Forall2 (is_line_of (λ _, "?") sampled) (sorted (dict_keys graph)) lines1 ∧
    Forall2 (is_line_of (λ _, "?") iterated) (sorted (dict_keys graph)) lines2 ∧
    Sorted (λ a b, Is_true (String.leb a b)) (sorted (dict_keys graph)) ∧
    sorted (dict_keys graph) ≡ₚ dict_keys graph.
Proof.
  apply (main_prints_two_sorted_reports (λ _, "?") 0.5%float 4 "pagerank.py" "corpus"
           (λ _, two_page_directory) (fixed_source 0 0.5%float) 100).
  vm_compute. reflexivity.
Defined.

Lemma main_prints_sampling_report_first_witness :
  ∃ lines1,
    printed (main_with (λ _, "?") 0.5%float 4 ["pagerank.py"; "corpus"]
               (λ _, two_page_directory) (fixed_source 0 0.5%float) 0)
    = ("PageRank Results from Sampling (n = " +:+ pretty 4 +:+ ")") :: lines1 ∧
    Forall2 (is_line_of (λ _, "?") [("b.html", 0.5%float); ("a.html", 0.5%float)])
      (sorted (dict_keys ([("b.html", {["a.html"]}); ("a.html", {["b.html"]})] : corpus_t)))
      lines1.
Proof.
  apply (main_prints_sampling_report_first (λ _, "?") 0.5%float 4 "pagerank.py" "corpus"
           (λ _, two_page_directory) (fixed_source 0 0.5%float) 0).
  - vm_compute. reflexivity.
  - vm_compute. reflexivity.
  - vm_compute. discriminate.
Defined.
